(** * compactLog: a shallow embedding of [compactLog.py]

    The log compactor reads a text file line by line, keeps the lines that
    fall inside a line-number range and a timestamp range, collapses runs of
    repeated lines and optionally routes lines to one file per keyword.

    Conventions of the embedding.
    - A Python [str] is a [string]: the sequence of its code points, for
      text whose code points are below 256.  In that range the decimal
      digits are ['0'..'9'] and the white space of [str.split] and
      [str.strip] is 9-13, 28-32, 133 and 160.
    - A Python [float] is a binary64 number, [spec_float] with precision 53
      and maximal exponent 1024.
    - A Python [int] is a [Z].
    - The input file is the list of the lines its iterator yields; an output
      file is the list of the strings passed to [write], in order.
    - [None] is [None] of an [option]; a raised exception is [Raise]. *)

From Stdlib Require Import ZArith NArith Ascii String List Bool Lia.
From Stdlib Require Import DecimalString.
From Stdlib Require DecimalPos.
From Stdlib Require Import SpecFloat.
From stdpp Require Import base option list gmap strings.

Open Scope string_scope.
Open Scope list_scope.
Open Scope Z_scope.

Arguments String.append !_ _ : simpl nomatch.

(** ** Exceptions *)

Inductive exn := TypeError | ValueError.

Inductive result (A : Type) :=
| Ok (a : A)
| Raise (e : exn).
Arguments Ok {A} a.
Arguments Raise {A} e.

Definition bind {A B} (r : result A) (k : A -> result B) : result B :=
  match r with
  | Ok a => k a
  | Raise e => Raise e
  end.

Notation "x <- r ;; k" := (bind r (fun x => k))
  (at level 100, r at next level, right associativity).

(** ** Built-in string operations *)

Module PyStr.

Definition nl : ascii := "010"%char.

(** ["\n"] *)
Definition NL : string := String nl EmptyString.

Definition is_digit (c : ascii) : bool :=
  let n := N_of_ascii c in ((48 <=? n) && (n <=? 57))%N.

(** [str.isspace] on one code point below 256. *)
Definition is_space (c : ascii) : bool :=
  let n := N_of_ascii c in
  (((9 <=? n) && (n <=? 13)) || ((28 <=? n) && (n <=? 32))
   || (n =? 133) || (n =? 160))%N.

Definition is_empty (s : string) : bool :=
  match s with EmptyString => true | String _ _ => false end.

(** [s.rstrip('\n')]: every trailing newline is removed. *)
Fixpoint rstrip_nl (s : string) : string :=
  match s with
  | EmptyString => EmptyString
  | String c r =>
      match rstrip_nl r with
      | EmptyString =>
          if Ascii.eqb c nl then EmptyString else String c EmptyString
      | r' => String c r'
      end
  end.

Fixpoint lstrip (s : string) : string :=
  match s with
  | EmptyString => EmptyString
  | String c r => if is_space c then lstrip r else s
  end.

Fixpoint rstrip (s : string) : string :=
  match s with
  | EmptyString => EmptyString
  | String c r =>
      match rstrip r with
      | EmptyString =>
          if is_space c then EmptyString else String c EmptyString
      | r' => String c r'
      end
  end.

(** [s.strip()] *)
Definition strip (s : string) : string := rstrip (lstrip s).

(** [s.split()]: the maximal runs of characters that are not white space.
    [tok] is the run being read. *)
Fixpoint split_from (tok s : string) : list string :=
  match s with
  | EmptyString => if is_empty tok then [] else [tok]
  | String c r =>
      if is_space c then
        if is_empty tok then split_from EmptyString r
        else tok :: split_from EmptyString r
      else split_from (tok +:+ String c EmptyString) r
  end.

Definition split (s : string) : list string := split_from EmptyString s.

(** [s.split(sep)] for a separator of one character. *)
Fixpoint split_on (sep : ascii) (s : string) : list string :=
  match s with
  | EmptyString => [EmptyString]
  | String c r =>
      if Ascii.eqb c sep then EmptyString :: split_on sep r
      else
        match split_on sep r with
        | h :: t => String c h :: t
        | [] => [String c EmptyString]
        end
  end.

Fixpoint startswith (s p : string) {struct p} : bool :=
  match p, s with
  | EmptyString, _ => true
  | String a p', String b s' => Ascii.eqb a b && startswith s' p'
  | String _ _, EmptyString => false
  end.

(** [sub in s] *)
Fixpoint contains (sub s : string) : bool :=
  startswith s sub
  || match s with
     | EmptyString => false
     | String _ r => contains sub r
     end.

(** [s.endswith(suffix)] *)
Definition endswith (s suffix : string) : bool :=
  let n := String.length s in
  let k := String.length suffix in
  (k <=? n)%nat && String.eqb (substring (n - k) k s) suffix.

(** [s[:-k]] for [k > 0] *)
Definition drop_last (k : nat) (s : string) : string :=
  substring 0 (String.length s - k) s.

(** The maximal prefix of decimal digits, and what follows it. *)
Fixpoint span_digits (s : string) : string * string :=
  match s with
  | EmptyString => (EmptyString, EmptyString)
  | String c r =>
      if is_digit c then
        let '(ds, rest) := span_digits r in (String c ds, rest)
      else (EmptyString, s)
  end.

(** [str(n)] for an [int] *)
Definition str_of_Z (n : Z) : string :=
  NilZero.string_of_int (Z.to_int n).

End PyStr.
Import PyStr.

(** ** Built-in floating-point operations *)

Module PyFloat.

Definition float : Type := spec_float.

Definition prec : Z := 53.
Definition emax : Z := 1024.

(** [x < y] and [x > y]; both are false when an operand is a NaN. *)
Definition lt (x y : float) : bool := SFltb x y.
Definition gt (x y : float) : bool := SFltb y x.

(** The binary64 number nearest to [m * 10 ^ e], ties to even. *)
Definition of_decimal (neg : bool) (m : N) (e : Z) : float :=
  match m with
  | N0 => S754_zero neg
  | Npos p =>
      if 0 <=? e then
        binary_round prec emax neg (p * Z.to_pos (10 ^ e))%positive 0
      else
        SFdiv prec emax (S754_finite neg p 0)
              (S754_finite false (Z.to_pos (10 ^ (- e))) 0)
  end.

Definition digit_value (c : ascii) : N := (N_of_ascii c - 48)%N.

Fixpoint N_of_digits_from (acc : N) (s : string) : N :=
  match s with
  | EmptyString => acc
  | String c r => N_of_digits_from (10 * acc + digit_value c)%N r
  end.

Definition N_of_digits (s : string) : N := N_of_digits_from 0%N s.

Definition lower (c : ascii) : ascii :=
  let n := N_of_ascii c in
  if ((65 <=? n) && (n <=? 90))%N then ascii_of_N (n + 32) else c.

Fixpoint lower_str (s : string) : string :=
  match s with
  | EmptyString => EmptyString
  | String c r => String (lower c) (lower_str r)
  end.

(** The white space [float] removes around its argument. *)
Definition is_float_space (c : ascii) : bool :=
  let n := N_of_ascii c in
  (((9 <=? n) && (n <=? 13)) || (n =? 32) || (n =? 133) || (n =? 160))%N.

Fixpoint lstrip_float (s : string) : string :=
  match s with
  | EmptyString => EmptyString
  | String c r => if is_float_space c then lstrip_float r else s
  end.

Fixpoint rstrip_float (s : string) : string :=
  match s with
  | EmptyString => EmptyString
  | String c r =>
      match rstrip_float r with
      | EmptyString =>
          if is_float_space c then EmptyString else String c EmptyString
      | r' => String c r'
      end
  end.

Definition underscore : ascii := "_"%char.

(** An underscore is accepted between two digits and removed; [prev] is
    the character read before [s]. *)
Fixpoint drop_underscores (prev : option ascii) (s : string)
  : option string :=
  match s with
  | EmptyString =>
      match prev with
      | Some p => if Ascii.eqb p underscore then None else Some EmptyString
      | None => Some EmptyString
      end
  | String c r =>
      if Ascii.eqb c underscore then
        match prev with
        | Some p =>
            if is_digit p then drop_underscores (Some c) r else None
        | None => None
        end
      else
        match prev with
        | Some p =>
            if Ascii.eqb p underscore && negb (is_digit c) then None
            else String c <$> drop_underscores (Some c) r
        | None => String c <$> drop_underscores (Some c) r
        end
  end.

(** An optional sign: whether it is a minus, and what follows it. *)
Definition split_sign (s : string) : bool * string :=
  match s with
  | String c r =>
      if Ascii.eqb c "+"%char then (false, r)
      else if Ascii.eqb c "-"%char then (true, r)
      else (false, s)
  | EmptyString => (false, s)
  end.

(** The exponent part, which must reach the end of the literal. *)
Definition parse_exponent (s : string) : option Z :=
  match s with
  | EmptyString => Some 0
  | String c r =>
      if Ascii.eqb (lower c) "e"%char then
        let '(neg, r') := split_sign r in
        let '(ds, rest) := span_digits r' in
        if is_empty ds || negb (is_empty rest) then None
        else
          let n := Z.of_N (N_of_digits ds) in
          Some (if neg then - n else n)
      else None
  end.

(** [float(s)] for a [str]; a malformed literal raises [ValueError]. *)
Definition float_of_str (s : string) : result float :=
  match drop_underscores None (rstrip_float (lstrip_float s)) with
  | None => Raise ValueError
  | Some u =>
      let '(neg, body) := split_sign u in
      let lb := lower_str body in
      if String.eqb lb "inf" || String.eqb lb "infinity" then
        Ok (S754_infinity neg)
      else if String.eqb lb "nan" then Ok S754_nan
      else
        let '(ip, r1) := span_digits body in
        let '(fp, r2) :=
          match r1 with
          | String c t =>
              if Ascii.eqb c "."%char then span_digits t
              else (EmptyString, r1)
          | EmptyString => (EmptyString, r1)
          end in
        if is_empty ip && is_empty fp then Raise ValueError
        else
          match parse_exponent r2 with
          | None => Raise ValueError
          | Some e =>
              Ok (of_decimal neg (N_of_digits (ip +:+ fp))
                             (e - Z.of_nat (String.length fp)))
          end
  end.

Definition round_half_even (num den : Z) : Z :=
  let q := num / den in
  match 2 * (num mod den) ?= den with
  | Lt => q
  | Gt => q + 1
  | Eq => if Z.even q then q else q + 1
  end.

Definition pad3 (n : Z) : string :=
  let s := str_of_Z n in
  match String.length s with
  | 1%nat => "00" +:+ s
  | 2%nat => "0" +:+ s
  | _ => s
  end.

Definition sign_str (neg : bool) : string :=
  if neg then "-" else EmptyString.

(** [format(x, '.3f')] *)
Definition format_3f (x : float) : string :=
  match x with
  | S754_nan => "nan"
  | S754_infinity s => sign_str s +:+ "inf"
  | S754_zero s => sign_str s +:+ "0.000"
  | S754_finite s m e =>
      let n :=
        if 0 <=? e then Zpos m * 2 ^ e * 1000
        else round_half_even (Zpos m * 1000) (2 ^ (- e)) in
      sign_str s +:+ str_of_Z (n / 1000) +:+ "." +:+ pad3 (n mod 1000)
  end.

(** [min(xs)] and [max(xs)]: the first element is kept until a later one
    compares strictly below (above) it; an empty argument raises
    [ValueError]. *)
Definition py_min (xs : list float) : result float :=
  match xs with
  | [] => Raise ValueError
  | x :: r => Ok (fold_left (fun acc y => if lt y acc then y else acc) r x)
  end.

Definition py_max (xs : list float) : result float :=
  match xs with
  | [] => Raise ValueError
  | x :: r => Ok (fold_left (fun acc y => if gt y acc then y else acc) r x)
  end.

End PyFloat.
Import PyFloat.

(** ** The program *)

(** What a run of a writer leaves behind: the strings written, in order, and
    the exception that stopped it, if one did. *)
Definition outcome : Type := list string * option exn.

Definition emit (w : list string) (o : outcome) : outcome :=
  (w ++ fst o, snd o).

(** [f"{prev_line} (x{count})"] *)
Definition repeated (prev_line : string) (count : Z) : string :=
  prev_line +:+ " (x" +:+ str_of_Z count +:+ ")".

(** *** [compact_lines] *)

Definition yield_previous (prev_line : option string) (count : Z)
  : list string :=
  match prev_line with
  | Some p => if count >? 1 then [repeated p count] else [p]
  | None => []
  end.

(** The [for] loop of [compact_lines] from the state [(prev_line, count)],
    followed by the statements after it; the result is the list of the
    values yielded. *)
Fixpoint compact_lines_from (prev_line : option string) (count : Z)
  (lines : list string) : list string :=
  match lines with
  | [] => yield_previous prev_line count
  | line :: rest =>
      let line := rstrip_nl line in
      if decide (Some line = prev_line) then
        compact_lines_from prev_line (count + 1) rest
      else
        yield_previous prev_line count
          ++ compact_lines_from (Some line) 1 rest
  end.

Definition compact_lines (lines : list string) : list string :=
  compact_lines_from None 0 lines.

(** *** [extract_timestamp_and_content] *)

(** [re.search(r'(\d+(\.\d+)?)', line)]: the text before the match, the
    match and the text after it.  The match starts at the first digit, takes
    every digit that follows and then, when a dot and a digit come next, the
    dot and every digit after it. *)
Fixpoint re_search_number (line : string)
  : option (string * string * string) :=
  match line with
  | EmptyString => None
  | String c r =>
      if is_digit c then
        let '(ds, rest) := span_digits line in
        match rest with
        | String d rest' =>
            if Ascii.eqb d "."%char then
              let '(fs, rest'') := span_digits rest' in
              if is_empty fs then Some (EmptyString, ds, rest)
              else Some (EmptyString, ds +:+ "." +:+ fs, rest'')
            else Some (EmptyString, ds, rest)
        | EmptyString => Some (EmptyString, ds, rest)
        end
      else
        match re_search_number r with
        | Some (before, m, after) => Some (String c before, m, after)
        | None => None
        end
  end.

Definition extract_timestamp_and_content (line : string)
  : result (option float * string) :=
  match re_search_number line with
  | None => Ok (None, rstrip_nl line)
  | Some (before, ts_str, after) =>
      ts <- float_of_str ts_str ;;
      let content := before +:+ after in
      Ok (Some ts, rstrip_nl content)
  end.

(** *** [line_timestamp_in_range] *)

(** [bound is not None and ts < bound], and the same with [>]. *)
Definition below (ts : float) (bound : option float) : bool :=
  match bound with Some b => lt ts b | None => false end.

Definition above (ts : float) (bound : option float) : bool :=
  match bound with Some b => gt ts b | None => false end.

(** The loop over the tokens: a token that is not a number is skipped, the
    first one that is decides. *)
Fixpoint scan_tokens (tokens : list string) (ts_start ts_end : option float)
  : bool :=
  match tokens with
  | [] => false
  | token :: rest =>
      match float_of_str token with
      | Ok ts =>
          if below ts ts_start then false
          else if above ts ts_end then false
          else true
      | Raise _ => scan_tokens rest ts_start ts_end
      end
  end.

Definition line_timestamp_in_range (line : string)
  (ts_start ts_end : option float) : bool :=
  let tokens := split (strip line) in
  scan_tokens tokens ts_start ts_end.

Section Bounds.

Variable start_line : Z.
Variable end_line : option Z.
Variables ts_start ts_end : option float.

(** [end_line is not None and i > end_line] *)
Definition past_end (i : Z) : bool :=
  match end_line with Some e => i >? e | None => false end.

Definition ts_bounded : bool :=
  bool_decide (is_Some ts_start) || bool_decide (is_Some ts_end).

(** *** [lines_filtered] *)

(** The loop of [lines_filtered] at line number [i]; the result is the
    list of the lines yielded. *)
Fixpoint lines_filtered_from (i : Z) (lines : list string) : list string :=
  match lines with
  | [] => []
  | line :: rest =>
      if i <? start_line then lines_filtered_from (i + 1) rest
      else if past_end i then []
      else if ts_bounded
              && negb (line_timestamp_in_range line ts_start ts_end)
      then lines_filtered_from (i + 1) rest
      else line :: lines_filtered_from (i + 1) rest
  end.

Definition lines_filtered (lines : list string) : list string :=
  lines_filtered_from 1 lines.

(** *** [process_compact] *)

(** [ts < bound] and [ts > bound] where [ts] may be [None]: comparing
    [None] with a float raises [TypeError]. *)
Definition none_lt (ts : option float) (bound : float) : result bool :=
  match ts with
  | Some t => Ok (lt t bound)
  | None => Raise TypeError
  end.

Definition none_gt (ts : option float) (bound : float) : result bool :=
  match ts with
  | Some t => Ok (gt t bound)
  | None => Raise TypeError
  end.

Definition line_in_filters (line : string) (lineno : Z)
  (ts : option float) : result bool :=
  if lineno <? start_line then Ok false
  else if past_end lineno then Ok false
  else
    (lo <- match ts_start with
           | Some b => none_lt ts b
           | None => Ok false
           end ;;
     if (lo : bool) then Ok false
     else
       (hi <- match ts_end with
              | Some b => none_gt ts b
              | None => Ok false
              end ;;
        if (hi : bool) then Ok false else Ok true)).

(** A member of a group: line number, line, timestamp. *)
Definition member : Type := Z * string * option float.

(** [zip(group_line_numbers, group_lines, group_timestamps)] *)
Fixpoint zip3 (ns : list Z) (ls : list string) (ts : list (option float))
  : list member :=
  match ns, ls, ts with
  | n :: ns', l :: ls', t :: ts' => (n, l, t) :: zip3 ns' ls' ts'
  | _, _, _ => []
  end.

(** [[(ln, l, t) for ln, l, t in ... if line_in_filters(l, ln, t)]] *)
Fixpoint filter_members (ms : list member) : result (list member) :=
  match ms with
  | [] => Ok []
  | (ln, l, t) :: rest =>
      keep <- line_in_filters l ln t ;;
      kept <- filter_members rest ;;
      Ok (if (keep : bool) then (ln, l, t) :: kept else kept)
  end.

(** [(t for _, _, t in filtered if t is not None)] *)
Definition timestamps_of (filtered : list member) : list float :=
  omap (fun m : member => snd m) filtered.

(** [f"{prev_content} (x{count}, TS: {ts_min:.3f}-{ts_max:.3f})\n"] *)
Definition summary (prev_content : string) (count : Z)
  (ts_min ts_max : float) : string :=
  prev_content +:+ " (x" +:+ str_of_Z count +:+ ", TS: "
    +:+ format_3f ts_min +:+ "-" +:+ format_3f ts_max +:+ ")" +:+ NL.

Record group := {
  group_lines : list string;
  group_timestamps : list (option float);
  group_line_numbers : list Z
}.

(** The block under [if prev_content is not None], which the source has
    once inside the loop and once after it: the strings it writes. *)
Definition flush_group (prev_content : string) (g : group)
  : result (list string) :=
  filtered <- filter_members
                (zip3 (group_line_numbers g) (group_lines g)
                      (group_timestamps g)) ;;
  let count := Z.of_nat (length filtered) in
  if count >? 0 then
    if count =? 1 then
      Ok match filtered with
         | (_, l, _) :: _ => [l]
         | [] => []
         end
    else
      (ts_min <- py_min (timestamps_of filtered) ;;
       ts_max <- py_max (timestamps_of filtered) ;;
       Ok [summary prev_content count ts_min ts_max])
  else Ok [].

Definition flush (prev_content : option string) (g : group)
  : result (list string) :=
  match prev_content with
  | Some pc => flush_group pc g
  | None => Ok []
  end.

Definition raised {A} (e : exn) : list A * option exn := ([], Some e).

(** The loop of [process_compact] at line number [lineno], followed by the
    flush of the last group. *)
Fixpoint process_compact_from (prev_content : option string) (g : group)
  (lineno : Z) (lines : list string) : outcome :=
  match lines with
  | [] =>
      match flush prev_content g with
      | Ok w => (w, None)
      | Raise e => raised e
      end
  | line :: rest =>
      match extract_timestamp_and_content line with
      | Raise e => raised e
      | Ok (ts, content) =>
          if decide (Some content = prev_content) then
            process_compact_from prev_content
              {| group_lines := group_lines g ++ [line];
                 group_timestamps := group_timestamps g ++ [ts];
                 group_line_numbers := group_line_numbers g ++ [lineno] |}
              (lineno + 1) rest
          else
            match flush prev_content g with
            | Raise e => raised e
            | Ok w =>
                emit w
                  (process_compact_from (Some content)
                     {| group_lines := [line];
                        group_timestamps := [ts];
                        group_line_numbers := [lineno] |}
                     (lineno + 1) rest)
            end
      end
  end.

Definition process_compact (lines : list string) : outcome :=
  process_compact_from None
    {| group_lines := []; group_timestamps := []; group_line_numbers := [] |}
    1 lines.

End Bounds.

(** *** [process_split] *)

(** The three dictionaries of [process_split], keyed by keyword.  A file
    object is the list of the strings written to it. *)
Record split_state := {
  keyword_files : gmap string (list string);
  prev_lines : gmap string (option string);
  counts : gmap string Z
}.

(** The dictionaries are filled for every keyword before the loop and read
    at keywords only, so a lookup never misses; the values given here for a
    missing key are never produced by a run. *)
Definition file_of (st : split_state) (kw : string) : list string :=
  default [] (keyword_files st !! kw).

Definition prev_of (st : split_state) (kw : string) : option string :=
  default None (prev_lines st !! kw).

Definition count_of (st : split_state) (kw : string) : Z :=
  default 0 (counts st !! kw).

(** [keyword_files[kw].write(s)] *)
Definition write (kw s : string) (st : split_state) : split_state :=
  {| keyword_files := <[kw := file_of st kw ++ [s]]> (keyword_files st);
     prev_lines := prev_lines st;
     counts := counts st |}.

(** The two [write] calls under [if prev_lines[kw] is not None]. *)
Definition write_previous (kw : string) (st : split_state) : split_state :=
  match prev_of st kw with
  | Some p =>
      if count_of st kw >? 1 then
        write kw (repeated p (count_of st kw) +:+ NL) st
      else write kw (p +:+ NL) st
  | None => st
  end.

(** The body of [if kw in stripped_line]. *)
Definition split_match (compact : bool) (kw line stripped_line : string)
  (st : split_state) : split_state :=
  if compact then
    if decide (Some stripped_line = prev_of st kw) then
      {| keyword_files := keyword_files st;
         prev_lines := prev_lines st;
         counts := <[kw := count_of st kw + 1]> (counts st) |}
    else
      let st' := write_previous kw st in
      {| keyword_files := keyword_files st';
         prev_lines := <[kw := Some stripped_line]> (prev_lines st');
         counts := <[kw := 1]> (counts st') |}
  else write kw line st.

(** [for kw in keywords: if kw in stripped_line: ...; break] *)
Fixpoint split_route (keywords : list string) (compact : bool)
  (line stripped_line : string) (st : split_state) : split_state :=
  match keywords with
  | [] => st
  | kw :: rest =>
      if contains kw stripped_line then
        split_match compact kw line stripped_line st
      else split_route rest compact line stripped_line st
  end.

Definition split_line (keywords : list string) (compact : bool)
  (st : split_state) (line : string) : split_state :=
  let stripped_line := rstrip_nl line in
  split_route keywords compact line stripped_line st.

(** The dictionaries before the loop. *)
Definition split_init (keywords : list string) : split_state :=
  {| keyword_files :=
       fold_left (fun d kw => <[kw := []]> d) keywords ∅;
     prev_lines := list_to_map ((fun kw => (kw, None)) <$> keywords);
     counts := list_to_map ((fun kw => (kw, 0)) <$> keywords) |}.

(** [if compact: for kw in keywords: ...] after the loop. *)
Definition split_finish (keywords : list string) (compact : bool)
  (st : split_state) : split_state :=
  if compact then fold_left (fun s kw => write_previous kw s) keywords st
  else st.

(** The part of [process_split] that consumes the lines [lines_filtered]
    yields; the result is [keyword_files] when the files are closed. *)
Definition split_streams (keywords : list string) (compact : bool)
  (filtered : list string) : gmap string (list string) :=
  keyword_files
    (split_finish keywords compact
       (fold_left (split_line keywords compact) filtered
          (split_init keywords))).

Definition process_split (lines : list string) (keywords : list string)
  (compact : bool) (start_line : Z) (end_line : option Z)
  (ts_start ts_end : option float) : gmap string (list string) :=
  split_streams keywords compact
    (lines_filtered start_line end_line ts_start ts_end lines).

(** [base] of [process_split] and [f"{base}.{kw}.log"] *)
Definition split_base (output_file_base : string) : string :=
  if endswith output_file_base ".log" then drop_last 4 output_file_base
  else output_file_base.

Definition split_filename (output_file_base kw : string) : string :=
  split_base output_file_base +:+ "." +:+ kw +:+ ".log".

(** *** [main] *)

(** The parsed command line; [args_log] is the list of the lines of the file
    named by [args.log]. *)
Record args := {
  args_log : list string;
  args_output : string;
  args_compact : bool;
  args_split : option string;
  args_line_range : option (Z * Z);
  args_timestamp_range : option (float * float)
}.

(** What a run leaves behind: the lines printed, the files opened for
    writing with what was written to each, and the exception that ended the
    run, if one did. *)
Record run := {
  stdout : list string;
  files : gmap string (list string);
  exception : option exn
}.

(** [if args.split]: the option was given and its value is not empty. *)
Definition split_requested (a : args) : bool :=
  match args_split a with
  | Some s => negb (is_empty s)
  | None => false
  end.

(** [[kw.strip() for kw in args.split.split(',')]] *)
Definition split_keywords (s : string) : list string :=
  strip <$> split_on ","%char s.

(** The files [process_split] has opened, by name. *)
Definition split_files (output_file_base : string) (keywords : list string)
  (streams : gmap string (list string)) : gmap string (list string) :=
  list_to_map
    ((fun kw => (split_filename output_file_base kw,
                 default [] (streams !! kw))) <$> keywords).

Definition main (a : args) : run :=
  let '(start_line, end_line) :=
    match args_line_range a with
    | Some (s, e) => (s, Some e)
    | None => (1, None)
    end in
  let '(ts_start, ts_end) :=
    match args_timestamp_range a with
    | Some (s, e) => (Some s, Some e)
    | None => (None, None)
    end in
  if split_requested a then
    let keywords := split_keywords (default EmptyString (args_split a)) in
    match keywords with
    | [] =>
        {| stdout := ["No keywords provided for splitting."];
           files := ∅;
           exception := None |}
    | _ =>
        {| stdout := [];
           files :=
             split_files (args_output a) keywords
               (process_split (args_log a) keywords (args_compact a)
                  start_line end_line ts_start ts_end);
           exception := None |}
    end
  else if args_compact a then
    let '(written, e) :=
      process_compact start_line end_line ts_start ts_end (args_log a) in
    {| stdout := []; files := {[ args_output a := written ]};
       exception := e |}
  else
    {| stdout := [];
       files :=
         {[ args_output a :=
              lines_filtered start_line end_line ts_start ts_end
                (args_log a) ]};
       exception := None |}.

(** *** [parse_time_range] and [parse_timestamp_range] *)

(** [sys.get_int_max_str_digits()], as CPython 3.11 and later start with. *)
Definition int_max_str_digits : Z := 4300.

(** [int(s)] for a [str]: white space around, an optional sign, decimal
    digits with single underscores between them; anything else raises
    [ValueError], and so do more than [int_max_str_digits] digits, leading
    zeros counted, sign and underscores not. *)
Definition int_of_str (s : string) : result Z :=
  match drop_underscores None (rstrip_float (lstrip_float s)) with
  | None => Raise ValueError
  | Some u =>
      let '(neg, body) := split_sign u in
      let '(ds, rest) := span_digits body in
      if is_empty ds || negb (is_empty rest) then Raise ValueError
      else if Z.of_nat (String.length ds) >? int_max_str_digits
      then Raise ValueError
      else
        let n := Z.of_N (N_of_digits ds) in
        Ok (if neg then - n else n)
  end.

(** What [argparse] gets from a [type=] function: the value, or the
    [ArgumentTypeError] that every exception in the function is turned
    into. *)
Inductive parsed (A : Type) :=
| Parsed (a : A)
| ArgumentTypeError (message : string).
Arguments Parsed {A} a.
Arguments ArgumentTypeError {A} message.

Definition time_range_message : string :=
  "Time range must be in format start-end with start <= end and both >=1".

Definition parse_time_range (range_str : string) : parsed (Z * Z) :=
  match
    (let parts := split_on "-"%char range_str in
     match parts with
     | [part0; part1] =>
         start <- int_of_str part0 ;;
         end_ <- int_of_str part1 ;;
         if (start <? 1) || (end_ <? start) then Raise ValueError
         else Ok (start, end_)
     | _ => Raise ValueError
     end)
  with
  | Ok r => Parsed r
  | Raise _ => ArgumentTypeError time_range_message
  end.

Definition timestamp_range_message : string :=
  "Timestamp range must be in format start-end with start <= end, e.g. 100026.000-100050.500".

Definition parse_timestamp_range (range_str : string)
  : parsed (float * float) :=
  match
    (let parts := split_on "-"%char range_str in
     match parts with
     | [part0; part1] =>
         start <- float_of_str part0 ;;
         end_ <- float_of_str part1 ;;
         if gt start end_ then Raise ValueError else Ok (start, end_)
     | _ => Raise ValueError
     end)
  with
  | Ok r => Parsed r
  | Raise _ => ArgumentTypeError timestamp_range_message
  end.

(** *** [ensure_dir_for_file] *)

Definition is_slash (c : ascii) : bool := Ascii.eqb c "/"%char.

(** [p[:p.rfind('/') + 1]]: the path up to its last slash, included. *)
Fixpoint upto_last_slash (p : string) : string :=
  match p with
  | EmptyString => EmptyString
  | String c r =>
      match upto_last_slash r with
      | EmptyString =>
          if is_slash c then String c EmptyString else EmptyString
      | h => String c h
      end
  end.

Fixpoint all_slashes (s : string) : bool :=
  match s with
  | EmptyString => true
  | String c r => is_slash c && all_slashes r
  end.

(** [s.rstrip('/')] *)
Fixpoint rstrip_slash (s : string) : string :=
  match s with
  | EmptyString => EmptyString
  | String c r =>
      match rstrip_slash r with
      | EmptyString =>
          if is_slash c then EmptyString else String c EmptyString
      | r' => String c r'
      end
  end.

(** [os.path.dirname(p)] on a POSIX system *)
Definition dirname (p : string) : string :=
  let head := upto_last_slash p in
  if negb (is_empty head) && negb (all_slashes head) then rstrip_slash head
  else head.

(** [ensure_dir_for_file]: the directory it passes to [os.makedirs], if it
    calls it; [path_exists] is [os.path.exists]. *)
Definition ensure_dir_for_file (path_exists : string -> bool)
  (filepath : string) : option string :=
  let directory := dirname filepath in
  if negb (is_empty directory) && negb (path_exists directory) then
    Some directory
  else None.

(** ** Notions used to state the properties *)

(** [enumerate(xs, start=i)] *)
Fixpoint enumerate_from {A} (i : Z) (xs : list A) : list (Z * A) :=
  match xs with
  | [] => []
  | x :: r => (i, x) :: enumerate_from (i + 1) r
  end.

(** The bounds [main] passes on. *)
Definition start_line_of (a : args) : Z :=
  match args_line_range a with Some (s, _) => s | None => 1 end.

Definition end_line_of (a : args) : option Z :=
  match args_line_range a with Some (_, e) => Some e | None => None end.

Definition ts_start_of (a : args) : option float :=
  match args_timestamp_range a with Some (s, _) => Some s | None => None end.

Definition ts_end_of (a : args) : option float :=
  match args_timestamp_range a with Some (_, e) => Some e | None => None end.

(** The specification's own wording of the token rule and of the Range
    Predicate, to compare the program with. *)
Module Spec.

(** The first white-space delimited token that parses as a float. *)
Fixpoint first_float (tokens : list string) : option float :=
  match tokens with
  | [] => None
  | token :: rest =>
      match float_of_str token with
      | Ok ts => Some ts
      | Raise _ => first_float rest
      end
  end.

Definition firstNumericToken (line : string) : option float :=
  first_float (split line).

(** Excluded if the line number is below the lower bound or above a set
    upper bound. *)
Definition line_number_check (start_line : Z) (end_line : option Z)
  (lineno : Z) : bool :=
  negb ((lineno <? start_line)
        || match end_line with Some e => lineno >? e | None => false end).

(** Applied only if a timestamp bound is set; then a line without a
    timestamp is excluded, and so is one below the lower or above the
    upper bound. *)
Definition timestamp_check (ts_start ts_end : option float)
  (timestamp : option float) : bool :=
  match ts_start, ts_end with
  | None, None => true
  | _, _ =>
      match timestamp with
      | None => false
      | Some ts => negb (below ts ts_start || above ts ts_end)
      end
  end.

Definition included (start_line : Z) (end_line : option Z)
  (ts_start ts_end : option float) (lineno : Z)
  (timestamp : option float) : bool :=
  line_number_check start_line end_line lineno
  && timestamp_check ts_start ts_end timestamp.

End Spec.

(** The Range Predicate on a numbered line of the plain mode, where the
    timestamp of a line is its first numeric token. *)
Definition in_range (start_line : Z) (end_line : option Z)
  (ts_start ts_end : option float) (p : Z * string) : bool :=
  Spec.included start_line end_line ts_start ts_end (fst p)
    (Spec.firstNumericToken (snd p)).

(** No two consecutive elements are equal. *)
Fixpoint no_repeat {A} (xs : list A) : Prop :=
  match xs with
  | x :: (y :: _) as r => x <> y /\ no_repeat r
  | _ => True
  end.

(** The timestamp and the content [process_compact] derives from a line. *)
Definition timestamp_of (line : string) : option float :=
  match extract_timestamp_and_content line with
  | Ok (ts, _) => ts
  | Raise _ => None
  end.

Definition content_of (line : string) : string :=
  match extract_timestamp_and_content line with
  | Ok (_, content) => content
  | Raise _ => EmptyString
  end.

(** The members that the lines [run], read from line number [n] on, add to
    a group. *)
Definition members_from (n : Z) (run : list string) : list member :=
  (fun p : Z * string => (fst p, snd p, timestamp_of (snd p)))
    <$> enumerate_from n run.

Definition group_of (ms : list member) : group :=
  {| group_lines := (fun m : member => snd (fst m)) <$> ms;
     group_timestamps := (fun m : member => snd m) <$> ms;
     group_line_numbers := (fun m : member => fst (fst m)) <$> ms |}.

Definition outcome_of (r : result (list string)) : outcome :=
  match r with
  | Ok w => (w, None)
  | Raise e => raised e
  end.

Definition empty_group : group :=
  {| group_lines := []; group_timestamps := []; group_line_numbers := [] |}.

(** The content of the group that is open once [pre] has been read from a
    state whose open group has content [pc]. *)
Definition last_content (pc : option string) (pre : list string)
  : option string :=
  match last pre with
  | Some l => Some (content_of l)
  | None => pc
  end.

(** What flushing the group made of [run] writes. *)
Definition flush_run (start_line : Z) (end_line : option Z)
  (ts_start ts_end : option float) (n : Z) (c : string)
  (run : list string) : outcome :=
  outcome_of
    (flush_group start_line end_line ts_start ts_end c
       (group_of (members_from n run))).

(** One writer after another: the second runs unless the first raised. *)
Definition then_ (o1 o2 : outcome) : outcome :=
  match snd o1 with
  | Some _ => o1
  | None => emit (fst o1) o2
  end.

(** The keyword the loop of [process_split] stops at. *)
Fixpoint first_match (keywords : list string) (stripped_line : string)
  : option string :=
  match keywords with
  | [] => None
  | kw :: rest =>
      if contains kw stripped_line then Some kw
      else first_match rest stripped_line
  end.

(** A line is routed to [kw]. *)
Definition routed (keywords : list string) (kw line : string) : bool :=
  bool_decide (first_match keywords (rstrip_nl line) = Some kw).

(** The stream of a keyword. *)
Definition stream (streams : gmap string (list string)) (kw : string)
  : list string :=
  default [] (streams !! kw).

(** What [process_split] holds for one keyword: what was written to its
    file, its previous line and its count; and what matching a line, and the
    writes after the loop, do to it. *)
Definition view : Type := list string * option string * Z.

Definition view_of (kw : string) (st : split_state) : view :=
  (file_of st kw, prev_of st kw, count_of st kw).

Definition view_write_previous (v : view) : view :=
  let '(f, p, n) := v in
  match p with
  | Some q =>
      (f ++ [if n >? 1 then repeated q n +:+ NL else q +:+ NL], p, n)
  | None => v
  end.

Definition view_match (compact : bool) (v : view) (line : string) : view :=
  let '(f, p, n) := v in
  if compact then
    if decide (Some (rstrip_nl line) = p) then (f, p, n + 1)
    else (fst (fst (view_write_previous v)), Some (rstrip_nl line), 1)
  else (f ++ [line], p, n).

Definition view_finish (keywords : list string) (compact : bool)
  (kw : string) (v : view) : view :=
  if compact then
    fold_left
      (fun v k => if decide (k = kw) then view_write_previous v else v)
      keywords v
  else v.

(** The floats 42.0, 100.0, 100026.125 and 100050.5. *)
Definition ts_42 : float := S754_finite false 5910974510923776 (-47).
Definition ts_100 : float := S754_finite false 7036874417766400 (-46).
Definition ts_100050_5 : float := S754_finite false 6875418007175168 (-36).

(** Strings of decimal digits, and strings of digits and dots. *)
Fixpoint all_digits (s : string) : bool :=
  match s with
  | EmptyString => true
  | String c r => is_digit c && all_digits r
  end.

Definition is_dot (c : ascii) : bool := Ascii.eqb c "."%char.

Fixpoint digits_and_dots (s : string) : bool :=
  match s with
  | EmptyString => true
  | String c r => (is_digit c || is_dot c) && digits_and_dots r
  end.

(** A character occurs in a string; a decimal digit occurs in it. *)
Fixpoint has_char (c : ascii) (s : string) : bool :=
  match s with
  | EmptyString => false
  | String d r => Ascii.eqb d c || has_char c r
  end.

Fixpoint has_digit (s : string) : bool :=
  match s with
  | EmptyString => false
  | String c r => is_digit c || has_digit r
  end.

(** A float is a NaN; its sign bit is set. *)
Definition is_nan (x : float) : bool :=
  match x with S754_nan => true | _ => false end.

Definition is_negative (x : float) : bool :=
  match x with
  | S754_zero s | S754_infinity s | S754_finite s _ _ => s
  | S754_nan => false
  end.

(** A record as [process_split] writes it. *)
Definition with_newline (r : string) : string := r +:+ NL.

(** How often a keyword is listed. *)
Definition occurrences (kw : string) (keywords : list string) : nat :=
  length (filter (fun k => k = kw) keywords).

(** What the file of a keyword holds at the end, from the surviving lines
    [mine] routed to the keyword, for a keyword listed [times] times:
    without [-c] those lines; with [-c] the records of [compact_lines] on
    them, each with a newline, the last record [times] times. *)
Definition expected_stream (compact : bool) (times : nat)
  (mine : list string) : list string :=
  if compact then
    let records := compact_lines mine in
    with_newline
      <$> (removelast records
           ++ from_option (replicate times) [] (last records))
  else mine.

(** The keyword a line goes to when the empty keyword is listed after the
    keywords [pre]. *)
Definition target (pre : list string) (line : string) : string :=
  default EmptyString (first_match pre (rstrip_nl line)).

(** * Properties *)

(** ** Comparing a missing timestamp *)

Section RangeFilter.

Variable start_line : Z.
Variable end_line : option Z.
Variables ts_start ts_end : option float.

(** A line whose number is out of range is rejected before its timestamp
    is looked at. *)
Lemma line_in_filters_outside line lineno ts :
  lineno < start_line \/ past_end end_line lineno = true ->
  line_in_filters start_line end_line ts_start ts_end line lineno ts
  = Ok false.
Proof.
  intros H. unfold line_in_filters.
  destruct (Z.ltb_spec lineno start_line) as [|Hge]; [reflexivity|].
  destruct H as [H|H]; [lia|]. now rewrite H.
Qed.

(** Inside the line range, a member without a timestamp makes the first
    comparison with a set bound raise. *)
Lemma line_in_filters_no_timestamp line lineno :
  start_line <= lineno -> past_end end_line lineno = false ->
  is_Some ts_start \/ is_Some ts_end ->
  line_in_filters start_line end_line ts_start ts_end line lineno None
  = Raise TypeError.
Proof.
  intros Hlo Hhi Hb. unfold line_in_filters.
  destruct (Z.ltb_spec lineno start_line); [lia|].
  rewrite Hhi.
  destruct ts_start as [s|]; [reflexivity|].
  destruct Hb as [[? Hs]|[e He]]; [discriminate|].
  subst. reflexivity.
Qed.

(** With no timestamp bound the timestamp is never compared. *)
Lemma line_in_filters_unbounded line lineno ts :
  ts_start = None -> ts_end = None ->
  line_in_filters start_line end_line ts_start ts_end line lineno ts
  = Ok (Spec.line_number_check start_line end_line lineno).
Proof.
  intros -> ->. unfold line_in_filters, Spec.line_number_check, past_end.
  destruct (lineno <? start_line); [reflexivity|].
  destruct end_line as [e|]; simpl; [|reflexivity].
  now destruct (lineno >? e).
Qed.

End RangeFilter.

(** C1.  With the timestamp range 100.0-100050.5, the one-line file
    ["hello\n"] has no timestamp; filtering its group compares [None] with
    the lower bound and the run of [main] with [-c] stops with [TypeError]
    instead of leaving the line out. *)
Theorem compact_member_without_timestamp_raises :
  extract_timestamp_and_content ("hello" +:+ NL) = Ok (None, "hello")
  /\ line_in_filters 1 None (Some ts_100) (Some ts_100050_5)
       ("hello" +:+ NL) 1 None
     = Raise TypeError
  /\ process_compact 1 None (Some ts_100) (Some ts_100050_5)
       ["hello" +:+ NL]
     = ([], Some TypeError)
  /\ exception
       (main {| args_log := ["hello" +:+ NL];
                args_output := "out.log";
                args_compact := true;
                args_split := None;
                args_line_range := None;
                args_timestamp_range := Some (ts_100, ts_100050_5) |})
     = Some TypeError.
Proof. repeat split; vm_compute; reflexivity. Qed.

(** C2.  With no bounds, the two-line file ["abc\n"; "abc\n"] forms one
    group of two surviving members without a timestamp; [min] is applied to
    an empty sequence and the run of [main] with [-c] stops with
    [ValueError]. *)
Theorem compact_group_without_timestamps_raises :
  filter_members 1 None None None
    (members_from 1 ["abc" +:+ NL; "abc" +:+ NL])
  = Ok [(1, "abc" +:+ NL, None); (2, "abc" +:+ NL, None)]
  /\ py_min (timestamps_of
               [(1, "abc" +:+ NL, None); (2, "abc" +:+ NL, None)])
     = Raise ValueError
  /\ process_compact 1 None None None ["abc" +:+ NL; "abc" +:+ NL]
     = ([], Some ValueError)
  /\ exception
       (main {| args_log := ["abc" +:+ NL; "abc" +:+ NL];
                args_output := "out.log";
                args_compact := true;
                args_split := None;
                args_line_range := None;
                args_timestamp_range := None |})
     = Some ValueError.
Proof. repeat split; vm_compute; reflexivity. Qed.

(** ** The keyword list of [main] *)

Lemma split_on_not_nil sep s : split_on sep s <> [].
Proof.
  destruct s as [|c r]; simpl; [discriminate|].
  destruct (Ascii.eqb c sep); [discriminate|].
  destruct (split_on sep r); discriminate.
Qed.

Lemma split_keywords_not_nil s : split_keywords s <> [].
Proof.
  unfold split_keywords. intros H.
  apply fmap_nil_inv in H. exact (split_on_not_nil _ _ H).
Qed.

(** The message of [main] is never printed: the list of keywords always has
    an entry. *)
Lemma main_never_reports_no_keywords a : stdout (main a) = [].
Proof.
  unfold main.
  destruct (args_line_range a) as [[? ?]|];
    destruct (args_timestamp_range a) as [[? ?]|];
    (destruct (split_requested a);
     [ pose proof (split_keywords_not_nil (default EmptyString (args_split a)));
       destruct (split_keywords _); [congruence|reflexivity]
     | destruct (args_compact a); [|reflexivity];
       destruct (process_compact _ _ _ _ _); reflexivity ]).
Qed.

(** C3.  For [-s ","] every entry of the keyword list trims to the empty
    string, yet the list has two entries: nothing is printed and
    [process_split] opens [out..log] and writes the input line to it. *)
Theorem split_with_blank_keywords_still_runs :
  split_keywords "," = [EmptyString; EmptyString]
  /\ stdout (main {| args_log := ["a" +:+ NL];
                 args_output := "out.log";
                 args_compact := false;
                 args_split := Some ",";
                 args_line_range := None;
                 args_timestamp_range := None |}) = []
  /\ files (main {| args_log := ["a" +:+ NL];
                 args_output := "out.log";
                 args_compact := false;
                 args_split := Some ",";
                 args_line_range := None;
                 args_timestamp_range := None |})
     = {[ "out..log" := ["a" +:+ NL] ]}.
Proof. repeat split; vm_compute; reflexivity. Qed.

(** ** [compact_lines] on input without repetitions *)

Lemma compact_lines_from_distinct p rest :
  no_repeat (p :: (rstrip_nl <$> rest)) ->
  compact_lines_from (Some p) 1 rest = p :: (rstrip_nl <$> rest).
Proof.
  revert p. induction rest as [|l r IH]; intros p H; simpl.
  - reflexivity.
  - destruct H as [Hne Hr].
    destruct (decide (Some (rstrip_nl l) = Some p)) as [E|_].
    + congruence.
    + simpl. f_equal. apply IH. exact Hr.
Qed.

(** C9.  When no two consecutive lines are equal once their trailing
    newlines are stripped, [compact_lines] yields the stripped lines, one
    for one and in order, none of them annotated; lines that carry no
    trailing newline come out as they went in. *)
Theorem compact_lines_without_repetition (lines : list string) :
  no_repeat (rstrip_nl <$> lines) ->
  compact_lines lines = rstrip_nl <$> lines
  /\ (Forall (fun l => rstrip_nl l = l) lines -> compact_lines lines = lines).
Proof.
  intros H.
  assert (E : compact_lines lines = rstrip_nl <$> lines).
  { destruct lines as [|l r]; [reflexivity|].
    unfold compact_lines. simpl.
    destruct (decide (Some (rstrip_nl l) = None)) as [E|_]; [discriminate|].
    simpl. apply compact_lines_from_distinct. exact H. }
  split; [exact E|].
  intros Hall. rewrite E. clear E H.
  induction Hall as [|l r Hl _ IH]; [reflexivity|].
  rewrite fmap_cons, Hl, IH. reflexivity.
Qed.

Lemma compact_lines_without_repetition_witness :
  compact_lines ["a" +:+ NL; "b"; "a" +:+ NL +:+ NL] = ["a"; "b"; "a"]
  /\ compact_lines ["a"; "a (x2)"; "a"] = ["a"; "a (x2)"; "a"].
Proof.
  split.
  - apply (compact_lines_without_repetition
             ["a" +:+ NL; "b"; "a" +:+ NL +:+ NL]).
    simpl. repeat split; discriminate.
  - apply (compact_lines_without_repetition ["a"; "a (x2)"; "a"]).
    + simpl. repeat split; discriminate.
    + repeat constructor.
Defined.

(** ** Decimal literals *)

Ltac ascii_cases c :=
  destruct c as [[] [] [] [] [] [] [] []];
  try discriminate; try reflexivity.

Lemma digit_or_dot_facts c :
  is_digit c || is_dot c = true ->
  is_float_space c = false
  /\ Ascii.eqb c underscore = false
  /\ Ascii.eqb c "+"%char = false
  /\ Ascii.eqb c "-"%char = false
  /\ lower c = c.
Proof. ascii_cases c; intros _; repeat split. Qed.

Lemma digit_facts c :
  is_digit c = true ->
  is_dot c = false
  /\ Ascii.eqb c "i"%char = false
  /\ Ascii.eqb c "n"%char = false.
Proof. ascii_cases c; intros _; repeat split. Qed.

Lemma all_digits_plain s : all_digits s = true -> digits_and_dots s = true.
Proof.
  induction s as [|c r IH]; simpl; [reflexivity|].
  intros [Hc Hr]%andb_prop. rewrite Hc, (IH Hr). reflexivity.
Qed.

Lemma digits_and_dots_app s t :
  digits_and_dots (s +:+ t) = digits_and_dots s && digits_and_dots t.
Proof.
  induction s as [|c r IH]; simpl; [reflexivity|].
  rewrite IH. now rewrite andb_assoc.
Qed.

Lemma all_digits_app s t :
  all_digits (s +:+ t) = all_digits s && all_digits t.
Proof.
  induction s as [|c r IH]; simpl; [reflexivity|].
  rewrite IH. now rewrite andb_assoc.
Qed.

Lemma rstrip_float_plain s :
  digits_and_dots s = true -> rstrip_float s = s.
Proof.
  induction s as [|c r IH]; simpl; [reflexivity|].
  intros [Hc Hr]%andb_prop. rewrite (IH Hr).
  destruct r; [|reflexivity].
  destruct (digit_or_dot_facts c Hc) as (-> & _). reflexivity.
Qed.

Lemma drop_underscores_plain s prev :
  match prev with Some p => Ascii.eqb p underscore = false | None => True end ->
  digits_and_dots s = true ->
  drop_underscores prev s = Some s.
Proof.
  revert prev. induction s as [|c r IH]; intros prev Hp; simpl.
  - intros _. destruct prev as [p|]; [now rewrite Hp|reflexivity].
  - intros [Hc Hr]%andb_prop.
    destruct (digit_or_dot_facts c Hc) as (_ & Hu & _).
    rewrite Hu.
    assert (E : drop_underscores (Some c) r = Some r) by (apply IH; assumption).
    rewrite E. destruct prev as [p|]; [rewrite Hp|]; reflexivity.
Qed.

Lemma lower_str_plain s : digits_and_dots s = true -> lower_str s = s.
Proof.
  induction s as [|c r IH]; simpl; [reflexivity|].
  intros [Hc Hr]%andb_prop. rewrite (IH Hr).
  destruct (digit_or_dot_facts c Hc) as (_ & _ & _ & _ & ->). reflexivity.
Qed.

Lemma span_digits_all s rest :
  all_digits s = true ->
  match rest with String c _ => is_digit c = false | EmptyString => True end ->
  span_digits (s +:+ rest) = (s, rest).
Proof.
  intros Hs Hr. induction s as [|c r IH]; simpl.
  - destruct rest as [|d t]; [reflexivity|]. simpl. now rewrite Hr.
  - simpl in Hs. apply andb_prop in Hs as [Hc Hs].
    rewrite Hc, (IH Hs). reflexivity.
Qed.

Lemma span_digits_spec s ds rest :
  span_digits s = (ds, rest) ->
  s = ds +:+ rest /\ all_digits ds = true
  /\ match rest with String c _ => is_digit c = false | EmptyString => True end.
Proof.
  revert ds rest. induction s as [|c r IH]; intros ds rest; simpl.
  - intros [= <- <-]. repeat split.
  - destruct (is_digit c) eqn:Hc.
    + destruct (span_digits r) as [ds' rest'] eqn:E.
      intros [= <- <-]. destruct (IH _ _ eq_refl) as (-> & Hd & Hr).
      simpl. rewrite Hc, Hd. repeat split. exact Hr.
    + intros [= <- <-]. simpl. repeat split. exact Hc.
Qed.

Lemma append_empty_r s : s +:+ EmptyString = s.
Proof. induction s as [|c r IH]; simpl; [reflexivity|]. now rewrite IH. Qed.

Lemma append_assoc (s t u : string) : (s +:+ t) +:+ u = s +:+ (t +:+ u).
Proof. induction s as [|c r IH]; simpl; [reflexivity|]. now rewrite IH. Qed.

(** What [float] makes of a digit string with an optional fraction: no
    exception, and the nearest binary64 number. *)
Lemma float_of_str_decimal ds fs :
  all_digits ds = true -> ds <> EmptyString -> all_digits fs = true ->
  float_of_str ds = Ok (of_decimal false (N_of_digits ds) 0)
  /\ (fs <> EmptyString ->
      float_of_str (ds +:+ "." +:+ fs)
      = Ok (of_decimal false (N_of_digits (ds +:+ fs))
                       (- Z.of_nat (String.length fs)))).
Proof.
  intros Hds Hne Hfs.
  assert (Hhead : forall t, digits_and_dots (ds +:+ t) = true ->
    exists c r, ds +:+ t = String c r /\ is_digit c = true).
  { intros t _. destruct ds as [|c r]; [congruence|].
    simpl in Hds. apply andb_prop in Hds as [Hc _]. eauto. }
  assert (Hpre : forall t, digits_and_dots (ds +:+ t) = true ->
    float_of_str (ds +:+ t)
    = let '(ip, r1) := span_digits (ds +:+ t) in
      let '(fp, r2) :=
        match r1 with
        | String c u =>
            if Ascii.eqb c "."%char then span_digits u else (EmptyString, r1)
        | EmptyString => (EmptyString, r1)
        end in
      if is_empty ip && is_empty fp then Raise ValueError
      else
        match parse_exponent r2 with
        | None => Raise ValueError
        | Some e =>
            Ok (of_decimal false (N_of_digits (ip +:+ fp))
                  (e - Z.of_nat (String.length fp)))
        end).
  { intros t Ht. destruct (Hhead t Ht) as (c & r & E & Hc).
    unfold float_of_str.
    assert (Hl : lstrip_float (ds +:+ t) = ds +:+ t).
    { rewrite E. simpl.
      destruct (digit_or_dot_facts c) as (-> & _); [now rewrite Hc|].
      reflexivity. }
    rewrite Hl, (rstrip_float_plain _ Ht).
    rewrite (drop_underscores_plain _ None I Ht).
    assert (Hs : split_sign (ds +:+ t) = (false, ds +:+ t)).
    { rewrite E. simpl.
      destruct (digit_or_dot_facts c) as (_ & _ & -> & -> & _);
        [now rewrite Hc|]. reflexivity. }
    rewrite Hs, (lower_str_plain _ Ht).
    assert (Hi : String.eqb (ds +:+ t) "inf" || String.eqb (ds +:+ t) "infinity"
                 = false).
    { rewrite E. simpl. destruct (digit_facts c Hc) as (_ & -> & _).
      reflexivity. }
    assert (Hn : String.eqb (ds +:+ t) "nan" = false).
    { rewrite E. simpl. destruct (digit_facts c Hc) as (_ & _ & ->).
      reflexivity. }
    rewrite Hi, Hn. reflexivity. }
  assert (Hemp : is_empty ds = false)
    by (destruct ds; [congruence|reflexivity]).
  split.
  - specialize (Hpre EmptyString). rewrite append_empty_r in Hpre.
    rewrite Hpre by (apply all_digits_plain; exact Hds).
    pose proof (span_digits_all ds EmptyString Hds I) as E.
    rewrite append_empty_r in E. rewrite E. rewrite Hemp. simpl.
    rewrite append_empty_r. reflexivity.
  - intros Hfne.
    rewrite Hpre.
    2:{ rewrite digits_and_dots_app.
        rewrite (all_digits_plain _ Hds). simpl.
        apply all_digits_plain. exact Hfs. }
    rewrite (span_digits_all ds ("." +:+ fs) Hds) by reflexivity.
    simpl.
    pose proof (span_digits_all fs EmptyString Hfs I) as E.
    rewrite append_empty_r in E. rewrite E. rewrite Hemp. simpl.
    reflexivity.
Qed.

(** [ValueError] is the only exception of [float], the one the loop of
    [line_timestamp_in_range] catches. *)
Lemma float_of_str_raises s e : float_of_str s = Raise e -> e = ValueError.
Proof. unfold float_of_str. repeat case_match; congruence. Qed.

(** ** The timestamp extractor never raises *)

Lemma re_search_number_float line before m after :
  re_search_number line = Some (before, m, after) ->
  exists ts, float_of_str m = Ok ts.
Proof.
  revert before. induction line as [|c r IH]; intros before; simpl.
  - discriminate.
  - destruct (is_digit c) eqn:Hc.
    + destruct (span_digits r) as [ds' rest] eqn:Es.
      destruct (span_digits_spec _ _ _ Es) as (_ & Hds' & _).
      assert (Hds : all_digits (String c ds') = true)
        by (simpl; now rewrite Hc, Hds').
      assert (Hne : String c ds' <> EmptyString) by discriminate.
      pose proof (float_of_str_decimal (String c ds') EmptyString Hds Hne
                    eq_refl) as [Hint _].
      destruct rest as [|d rest'].
      { intros [= <- <- <-]. eauto. }
      destruct (Ascii.eqb d ".") eqn:Hd.
      * destruct (span_digits rest') as [fs rest''] eqn:Ef.
        destruct (span_digits_spec _ _ _ Ef) as (_ & Hfs & _).
        destruct fs as [|f fs'].
        { intros [= <- <- <-]. eauto. }
        simpl. intros [= <- <- <-].
        pose proof (float_of_str_decimal (String c ds') (String f fs') Hds Hne
                      Hfs) as [_ Hfrac].
        eexists. apply Hfrac. discriminate.
      * intros [= <- <- <-]. eauto.
    + destruct (re_search_number r) as [[[b m'] a]|] eqn:E; [|discriminate].
      intros [= <- <- <-]. eapply IH. reflexivity.
Qed.

Lemma extract_timestamp_and_content_ok line :
  extract_timestamp_and_content line
  = Ok (timestamp_of line, content_of line).
Proof.
  unfold timestamp_of, content_of, extract_timestamp_and_content.
  destruct (re_search_number line) as [[[b m] a]|] eqn:E; [|reflexivity].
  destruct (re_search_number_float _ _ _ _ E) as [ts ->]. reflexivity.
Qed.

(** ** The token rule *)

Lemma split_lstrip s : split (lstrip s) = split s.
Proof.
  unfold split. induction s as [|c r IH]; simpl; [reflexivity|].
  destruct (is_space c) eqn:Hc; simpl; [exact IH|].
  now rewrite Hc.
Qed.

Lemma split_from_rstrip s tok : split_from tok (rstrip s) = split_from tok s.
Proof.
  revert tok. induction s as [|c r IH]; intros tok; simpl; [reflexivity|].
  destruct (rstrip r) as [|d r'] eqn:E.
  - destruct (is_space c) eqn:Hc; simpl.
    + rewrite <- (IH EmptyString). simpl.
      destruct (is_empty tok); reflexivity.
    + rewrite Hc. rewrite <- IH. reflexivity.
  - simpl. destruct (is_space c) eqn:Hc.
    + rewrite <- (IH EmptyString). reflexivity.
    + rewrite <- IH. reflexivity.
Qed.

(** Stripping the line before splitting it changes nothing. *)
Lemma split_strip s : split (strip s) = split s.
Proof.
  unfold strip. unfold split at 1. rewrite split_from_rstrip.
  apply split_lstrip.
Qed.

Lemma scan_tokens_first_float tokens ts_start ts_end :
  scan_tokens tokens ts_start ts_end
  = match Spec.first_float tokens with
    | Some ts => negb (below ts ts_start || above ts ts_end)
    | None => false
    end.
Proof.
  induction tokens as [|t r IH]; simpl; [reflexivity|].
  destruct (float_of_str t) as [ts|e]; [|exact IH].
  destruct (below ts ts_start); [reflexivity|].
  destruct (above ts ts_end); reflexivity.
Qed.

(** [line_timestamp_in_range] decides by the first numeric token. *)
Lemma line_timestamp_in_range_token line ts_start ts_end :
  line_timestamp_in_range line ts_start ts_end
  = match Spec.firstNumericToken line with
    | Some ts => negb (below ts ts_start || above ts ts_end)
    | None => false
    end.
Proof.
  unfold line_timestamp_in_range, Spec.firstNumericToken.
  rewrite split_strip. apply scan_tokens_first_float.
Qed.

(** C7.  On the line ["id42 100.0"] the regular expression of
    [extract_timestamp_and_content] finds 42 inside the token [id42] and
    leaves the content ["id 100.0"], while [float] rejects the token [id42]
    and [line_timestamp_in_range] decides by the next token, 100.0: the two
    rules give different timestamps. *)
Theorem extraction_rules_disagree :
  extract_timestamp_and_content "id42 100.0" = Ok (Some ts_42, "id 100.0")
  /\ split (strip "id42 100.0") = ["id42"; "100.0"]
  /\ float_of_str "id42" = Raise ValueError
  /\ float_of_str "100.0" = Ok ts_100
  /\ Spec.firstNumericToken "id42 100.0" = Some ts_100
  /\ (forall ts_start ts_end,
        line_timestamp_in_range "id42 100.0" ts_start ts_end
        = negb (below ts_100 ts_start || above ts_100 ts_end))
  /\ line_timestamp_in_range "id42 100.0" (Some ts_100) (Some ts_100) = true
  /\ line_timestamp_in_range "id42 100.0" (Some ts_42) (Some ts_42) = false
  /\ ts_42 <> ts_100
  /\ SFeqb ts_42 ts_100 = false.
Proof.
  assert (Htok : Spec.firstNumericToken "id42 100.0" = Some ts_100)
    by (vm_compute; reflexivity).
  split; [vm_compute; reflexivity|].
  split; [vm_compute; reflexivity|].
  split; [vm_compute; reflexivity|].
  split; [vm_compute; reflexivity|].
  split; [exact Htok|].
  split.
  { intros ts_start ts_end.
    rewrite line_timestamp_in_range_token, Htok. reflexivity. }
  split; [vm_compute; reflexivity|].
  split; [vm_compute; reflexivity|].
  split; [discriminate|].
  vm_compute; reflexivity.
Qed.

(** ** The plain mode *)

Section PlainMode.

Variable start_line : Z.
Variable end_line : option Z.
Variables ts_start ts_end : option float.

Abbreviation keep := (in_range start_line end_line ts_start ts_end).

Lemma past_end_mono i j :
  past_end end_line i = true -> i <= j -> past_end end_line j = true.
Proof.
  unfold past_end. destruct end_line as [e|]; [|discriminate].
  intros H Hij. apply Z.gtb_lt in H. apply Z.gtb_lt. lia.
Qed.

(** Once [lines_filtered] has left its loop, no later line is in range. *)
Lemma filter_past_end lines i :
  past_end end_line i = true ->
  List.filter keep (enumerate_from i lines) = [].
Proof.
  revert i. induction lines as [|l r IH]; intros i Hi; simpl.
  - reflexivity.
  - rewrite IH by (apply (past_end_mono i); [exact Hi|lia]).
    unfold keep, in_range, Spec.included, Spec.line_number_check. simpl.
    unfold past_end in Hi. destruct end_line as [e|]; [|discriminate].
    rewrite Hi. rewrite orb_true_r. reflexivity.
Qed.

Lemma timestamp_check_token line :
  Spec.timestamp_check ts_start ts_end (Spec.firstNumericToken line)
  = negb (ts_bounded ts_start ts_end
          && negb (line_timestamp_in_range line ts_start ts_end)).
Proof.
  rewrite line_timestamp_in_range_token.
  unfold Spec.timestamp_check, ts_bounded.
  destruct ts_start as [s|], ts_end as [e|];
    destruct (Spec.firstNumericToken line) as [ts|]; simpl;
    try reflexivity;
    now rewrite ?negb_involutive.
Qed.

Lemma lines_filtered_from_range i lines :
  lines_filtered_from start_line end_line ts_start ts_end i lines
  = snd <$> List.filter keep (enumerate_from i lines).
Proof.
  revert i. induction lines as [|l r IH]; intros i; simpl.
  - reflexivity.
  - destruct (i <? start_line) eqn:Hlo.
    { rewrite IH. unfold keep at 2, in_range, Spec.included,
        Spec.line_number_check. simpl. rewrite Hlo. reflexivity. }
    destruct (past_end end_line i) eqn:Hhi.
    { rewrite (filter_past_end r (i + 1))
        by (apply (past_end_mono i); [exact Hhi|lia]).
      unfold keep, in_range, Spec.included, Spec.line_number_check. simpl.
      unfold past_end in Hhi. destruct end_line as [e|]; [|discriminate].
      rewrite Hhi, orb_true_r. reflexivity. }
    assert (Hk : keep (i, l)
                 = negb (ts_bounded ts_start ts_end
                         && negb (line_timestamp_in_range l ts_start
                                    ts_end))).
    { unfold keep, in_range, Spec.included, Spec.line_number_check. simpl.
      rewrite Hlo. unfold past_end in Hhi.
      rewrite timestamp_check_token.
      destruct end_line as [e|]; [rewrite Hhi|]; reflexivity. }
    rewrite Hk, IH.
    destruct (ts_bounded ts_start ts_end
              && negb (line_timestamp_in_range l ts_start ts_end));
      reflexivity.
Qed.

(** With a timestamp bound set, a line without a numeric token fails the
    predicate at every line number. *)
Lemma in_range_no_token i line :
  is_Some ts_start \/ is_Some ts_end ->
  Spec.firstNumericToken line = None ->
  keep (i, line) = false.
Proof.
  intros Hb Hn. unfold keep, in_range, Spec.included. simpl.
  rewrite Hn. unfold Spec.timestamp_check.
  destruct ts_start, ts_end; try apply andb_false_r.
  destruct Hb as [[? H]|[? H]]; discriminate.
Qed.

End PlainMode.

(** C4.  Without [-s] and [-c], [main] writes to the output file exactly the
    input lines that satisfy the Range Predicate, in their order and
    unchanged; when a timestamp bound is set, a line without a numeric token
    fails the predicate whatever its line number and is not written. *)
Theorem plain_mode_is_range_filter (a : args) :
  split_requested a = false -> args_compact a = false ->
  let keep :=
    in_range (start_line_of a) (end_line_of a) (ts_start_of a)
      (ts_end_of a) in
  let written := snd <$> List.filter keep (enumerate_from 1 (args_log a)) in
  main a = {| stdout := []; files := {[ args_output a := written ]};
              exception := None |}
  /\ (forall i line,
        is_Some (ts_start_of a) \/ is_Some (ts_end_of a) ->
        Spec.firstNumericToken line = None ->
        keep (i, line) = false /\ line ∉ written).
Proof.
  intros Hs Hc keep written. split.
  - unfold main. rewrite Hs, Hc.
    subst written keep.
    unfold start_line_of, end_line_of, ts_start_of, ts_end_of.
    destruct (args_line_range a) as [[s e]|];
      destruct (args_timestamp_range a) as [[s' e']|];
      unfold lines_filtered; rewrite lines_filtered_from_range; reflexivity.
  - intros i line Hb Hn.
    assert (Hk : forall j, keep (j, line) = false)
      by (intros j; apply in_range_no_token; assumption).
    split; [apply Hk|].
    intros Hin. apply list_elem_of_fmap in Hin as ([j l] & -> & Hin).
    apply list_elem_of_In, filter_In in Hin as [_ Hin].
    simpl in Hin. rewrite Hk in Hin. discriminate.
Qed.

Lemma plain_mode_is_range_filter_witness :
  main {| args_log := ["1 a" +:+ NL; "x 5 b" +:+ NL; "no number" +:+ NL;
                       "7.5 c" +:+ NL; "6 d" +:+ NL];
          args_output := "out.log";
          args_compact := false;
          args_split := None;
          args_line_range := Some (2, 4);
          args_timestamp_range := Some (ts_42, ts_100) |}
  = {| stdout := [];
       files := {[ "out.log" := [] ]};
       exception := None |}
  /\ main {| args_log := ["1 a" +:+ NL; "x 50 b" +:+ NL; "no number" +:+ NL;
                          "75.5 c" +:+ NL; "60 d" +:+ NL];
             args_output := "out.log";
             args_compact := false;
             args_split := None;
             args_line_range := Some (2, 4);
             args_timestamp_range := Some (ts_42, ts_100) |}
     = {| stdout := [];
          files := {[ "out.log" := ["x 50 b" +:+ NL; "75.5 c" +:+ NL] ]};
          exception := None |}.
Proof.
  split.
  - apply (plain_mode_is_range_filter
             {| args_log := ["1 a" +:+ NL; "x 5 b" +:+ NL; "no number" +:+ NL;
                             "7.5 c" +:+ NL; "6 d" +:+ NL];
                args_output := "out.log";
                args_compact := false;
                args_split := None;
                args_line_range := Some (2, 4);
                args_timestamp_range := Some (ts_42, ts_100) |});
      reflexivity.
  - apply (plain_mode_is_range_filter
             {| args_log := ["1 a" +:+ NL; "x 50 b" +:+ NL;
                             "no number" +:+ NL; "75.5 c" +:+ NL;
                             "60 d" +:+ NL];
                args_output := "out.log";
                args_compact := false;
                args_split := None;
                args_line_range := Some (2, 4);
                args_timestamp_range := Some (ts_42, ts_100) |});
      reflexivity.
Defined.

(** ** Writers in sequence *)

Lemma emit_nil o : emit [] o = o.
Proof. now destruct o. Qed.

Lemma then_written w o : then_ (w, None) o = emit w o.
Proof. reflexivity. Qed.

Lemma then_raised e o : then_ (raised e) o = raised e.
Proof. reflexivity. Qed.

Lemma then_nothing o : then_ o ([], None) = o.
Proof.
  destruct o as [w [e|]]; [reflexivity|].
  unfold then_, emit. simpl. now rewrite app_nil_r.
Qed.

Lemma then_assoc o1 o2 o3 : then_ o1 (then_ o2 o3) = then_ (then_ o1 o2) o3.
Proof.
  destruct o1 as [w1 [e1|]]; [reflexivity|].
  destruct o2 as [w2 [e2|]]; [reflexivity|].
  destruct o3 as [w3 e3]. unfold then_, emit. simpl.
  now rewrite app_assoc.
Qed.

(** ** Groups of [process_compact] *)

Section Grouping.

Variable start_line : Z.
Variable end_line : option Z.
Variables ts_start ts_end : option float.

Abbreviation flush_ := (flush start_line end_line ts_start ts_end).
Abbreviation flush_group_ :=
  (flush_group start_line end_line ts_start ts_end).
Abbreviation filter_members_ :=
  (filter_members start_line end_line ts_start ts_end).
Abbreviation loop_ :=
  (process_compact_from start_line end_line ts_start ts_end).

Lemma zip3_group_of ms :
  zip3 (group_line_numbers (group_of ms)) (group_lines (group_of ms))
       (group_timestamps (group_of ms)) = ms.
Proof.
  induction ms as [|[[n l] t] r IH]; [reflexivity|].
  simpl. f_equal. exact IH.
Qed.

Lemma group_of_snoc ms n l t :
  {| group_lines := group_lines (group_of ms) ++ [l];
     group_timestamps := group_timestamps (group_of ms) ++ [t];
     group_line_numbers := group_line_numbers (group_of ms) ++ [n] |}
  = group_of (ms ++ [(n, l, t)]).
Proof. unfold group_of. simpl. now rewrite !fmap_app. Qed.

(** One turn of the loop, with the extractor's result made explicit. *)
Lemma process_compact_from_cons pc g n l rest :
  loop_ pc g n (l :: rest)
  = if decide (Some (content_of l) = pc) then
      loop_ pc
        {| group_lines := group_lines g ++ [l];
           group_timestamps := group_timestamps g ++ [timestamp_of l];
           group_line_numbers := group_line_numbers g ++ [n] |}
        (n + 1) rest
    else
      then_ (outcome_of (flush_ pc g))
        (loop_ (Some (content_of l)) (group_of [(n, l, timestamp_of l)])
           (n + 1) rest).
Proof.
  simpl. rewrite extract_timestamp_and_content_ok.
  destruct (decide (Some (content_of l) = pc)); [reflexivity|].
  destruct (flush_ pc g); reflexivity.
Qed.

Lemma process_compact_from_nil pc g n :
  loop_ pc g n [] = outcome_of (flush_ pc g).
Proof. reflexivity. Qed.

Lemma last_content_cons pc l pre :
  last_content pc (l :: pre) = last_content (Some (content_of l)) pre.
Proof.
  unfold last_content. destruct pre as [|x r]; [reflexivity|].
  rewrite last_cons. now destruct (last (x :: r)).
Qed.

(** Where the content changes, the file splits: what is written for
    [pre ++ rest] is what is written for [pre], group by group, followed by
    what is written for [rest] read as a file of its own. *)
Lemma process_compact_from_app pre : forall pc g n rest,
  (forall l, head rest = Some l -> Some (content_of l) <> last_content pc pre) ->
  loop_ pc g n (pre ++ rest)
  = then_ (loop_ pc g n pre)
      (loop_ None empty_group (n + Z.of_nat (length pre)) rest).
Proof.
  induction pre as [|l pre IH]; intros pc g n rest Hb.
  - simpl app. rewrite process_compact_from_nil.
    replace (n + Z.of_nat (length (@nil string))) with n by (simpl; lia).
    destruct rest as [|x rest].
    + rewrite !process_compact_from_nil. simpl. now rewrite then_nothing.
    + rewrite !process_compact_from_cons.
      destruct (decide (Some (content_of x) = pc)) as [E|_].
      { exfalso. apply (Hb x eq_refl). exact E. }
      destruct (decide (Some (content_of x) = None)) as [E|_];
        [discriminate|].
      simpl. rewrite then_written, emit_nil. reflexivity.
  - simpl app. rewrite !process_compact_from_cons.
    replace (n + Z.of_nat (length (l :: pre)))
      with ((n + 1) + Z.of_nat (length pre)) by (simpl length; lia).
    rewrite last_content_cons in Hb.
    destruct (decide (Some (content_of l) = pc)) as [E|_].
    + apply IH. now rewrite <- E.
    + rewrite IH by exact Hb. apply then_assoc.
Qed.

(** Lines of one content all join the open group of that content. *)
Lemma process_compact_from_same c run : forall ms n,
  Forall (fun l => content_of l = c) run ->
  loop_ (Some c) (group_of ms) n run
  = outcome_of (flush_group_ c (group_of (ms ++ members_from n run))).
Proof.
  induction run as [|l run IH]; intros ms n Hall.
  - rewrite process_compact_from_nil. simpl. now rewrite app_nil_r.
  - apply Forall_cons in Hall as [Hl Hall].
    rewrite process_compact_from_cons.
    destruct (decide (Some (content_of l) = Some c)) as [_|N];
      [|congruence].
    rewrite group_of_snoc, IH by exact Hall.
    unfold members_from. simpl. now rewrite <- app_assoc.
Qed.

(** A run of one content, read as a file of its own, is one group. *)
Lemma process_compact_from_run c run n :
  run <> [] ->
  Forall (fun l => content_of l = c) run ->
  loop_ None empty_group n run
  = flush_run start_line end_line ts_start ts_end n c run.
Proof.
  intros Hne Hall. destruct run as [|l run]; [congruence|].
  pose proof Hall as Hall'.
  apply Forall_cons in Hall as [Hl Hall].
  rewrite process_compact_from_cons.
  destruct (decide (Some (content_of l) = None)) as [E|_]; [discriminate|].
  simpl outcome_of. rewrite then_written, emit_nil, Hl.
  rewrite (process_compact_from_same c run [(n, l, timestamp_of l)])
    by exact Hall.
  reflexivity.
Qed.

(** What a flush writes, by the number of members that survive. *)
Lemma flush_group_cases c ms survivors :
  filter_members_ ms = Ok survivors ->
  match survivors with
  | [] => flush_group_ c (group_of ms) = Ok []
  | [(_, l, _)] => flush_group_ c (group_of ms) = Ok [l]
  | _ :: _ :: _ =>
      (exists ts_min ts_max,
         py_min (timestamps_of survivors) = Ok ts_min
         /\ py_max (timestamps_of survivors) = Ok ts_max
         /\ flush_group_ c (group_of ms)
            = Ok [summary c (Z.of_nat (length survivors)) ts_min ts_max])
      \/ (timestamps_of survivors = []
          /\ flush_group_ c (group_of ms) = Raise ValueError)
  end.
Proof.
  intros Hf. unfold flush_group. rewrite zip3_group_of, Hf.
  cbv beta iota delta [bind].
  destruct survivors as [|[[n1 l1] t1] [|m2 rest]];
    [reflexivity|reflexivity|].
  set (kept := ((n1, l1, t1) : member) :: m2 :: rest).
  replace (Z.of_nat (length kept) >? 0) with true
    by (symmetry; apply Z.gtb_lt; subst kept; simpl length; lia).
  replace (Z.of_nat (length kept) =? 1) with false
    by (symmetry; apply Z.eqb_neq; subst kept; simpl length; lia).
  destruct (timestamps_of kept) as [|x xs] eqn:E.
  - right. split; reflexivity.
  - left. eexists _, _. repeat split; reflexivity.
Qed.

(** Two or more survivors, none with a timestamp: [min] has nothing to
    choose from. *)
Lemma flush_group_no_timestamps c ms survivors :
  filter_members_ ms = Ok survivors ->
  (2 <= length survivors)%nat ->
  Forall (fun m : member => snd m = None) survivors ->
  flush_group_ c (group_of ms) = Raise ValueError.
Proof.
  intros Hf Hlen Hnone.
  pose proof (flush_group_cases c ms survivors Hf) as H.
  assert (Hts : timestamps_of survivors = []).
  { clear -Hnone. induction Hnone as [|m r Hm _ IH]; [reflexivity|].
    unfold timestamps_of in *. simpl. now rewrite Hm. }
  destruct survivors as [|m1 [|m2 rest]]; simpl in Hlen; try lia.
  destruct m1 as [[n1 l1] t1].
  destruct H as [(ts_min & ts_max & Hmin & _)|[_ H]]; [|exact H].
  rewrite Hts in Hmin. discriminate.
Qed.

Lemma flush_group_at_most_one c g :
  (length (fst (outcome_of (flush_group_ c g))) <= 1)%nat.
Proof.
  unfold flush_group.
  destruct (filter_members_ _) as [survivors|e]; simpl; [|lia].
  destruct (Z.of_nat (length survivors) >? 0); [|simpl; lia].
  destruct (Z.of_nat (length survivors) =? 1).
  - destruct survivors as [|[[? ?] ?] ?]; simpl; lia.
  - destruct (py_min _); simpl; [|lia].
    destruct (py_max _); simpl; lia.
Qed.

End Grouping.

(** C5.  The file ["a 1"; "abc"; "abc"; "b 2"] has a run of two lines of
    content [abc] between lines of other contents, and with no bounds both
    members survive, in the program and by the Range Predicate: the claim
    has one record of count 2 for the run.  The flush of the run applies
    [min] to an empty sequence: [process_compact] stops with [ValueError]
    once the first line is written, and no record is written for the run.
    With the timestamp bounds 42 and 100, the run ["50 abc"; " abc"] has one
    member inside the range and one without a timestamp, which the Range
    Predicate excludes: the flush raises [TypeError] and nothing is
    written. *)
Theorem compact_run_with_survivors_emits_no_record :
  (content_of ("abc" +:+ NL) = "abc"
   /\ content_of ("a 1" +:+ NL) <> "abc"
   /\ content_of ("b 2" +:+ NL) <> "abc"
   /\ filter_members 1 None None None
        (members_from 2 ["abc" +:+ NL; "abc" +:+ NL])
      = Ok [(2, "abc" +:+ NL, None); (3, "abc" +:+ NL, None)]
   /\ Spec.included 1 None None None 2
        (Spec.firstNumericToken ("abc" +:+ NL)) = true
   /\ Spec.included 1 None None None 3
        (Spec.firstNumericToken ("abc" +:+ NL)) = true
   /\ flush_run 1 None None None 2 "abc" ["abc" +:+ NL; "abc" +:+ NL]
      = ([], Some ValueError)
   /\ process_compact 1 None None None
        ["a 1" +:+ NL; "abc" +:+ NL; "abc" +:+ NL; "b 2" +:+ NL]
      = (["a 1" +:+ NL], Some ValueError))
  /\ (content_of ("50 abc" +:+ NL) = " abc"
      /\ content_of (" abc" +:+ NL) = " abc"
      /\ Spec.included 1 None (Some ts_42) (Some ts_100) 1
           (Spec.firstNumericToken ("50 abc" +:+ NL)) = true
      /\ Spec.included 1 None (Some ts_42) (Some ts_100) 2
           (Spec.firstNumericToken (" abc" +:+ NL)) = false
      /\ filter_members 1 None (Some ts_42) (Some ts_100)
           (members_from 1 ["50 abc" +:+ NL; " abc" +:+ NL])
         = Raise TypeError
      /\ process_compact 1 None (Some ts_42) (Some ts_100)
           ["50 abc" +:+ NL; " abc" +:+ NL]
         = ([], Some TypeError)).
Proof.
  split.
  - split; [vm_compute; reflexivity|].
    split; [vm_compute; discriminate|].
    split; [vm_compute; discriminate|].
    repeat split; vm_compute; reflexivity.
  - repeat split; vm_compute; reflexivity.
Qed.

(** ** The summary line *)




(** ** Substrings and the first matching keyword *)

Lemma startswith_prefix p : forall s,
  startswith s p = true <-> exists b, s = p +:+ b.
Proof.
  induction p as [|a p IH]; intros s; simpl.
  - split; [eauto|reflexivity].
  - destruct s as [|c s]; simpl.
    + split; [discriminate|]. intros [b H]. discriminate.
    + rewrite andb_true_iff, IH. split.
      * intros [E [b ->]]. apply Ascii.eqb_eq in E as ->. eauto.
      * intros [b [= -> ->]]. split; [apply Ascii.eqb_refl|eauto].
Qed.

(** [contains] is the substring test. *)
Lemma contains_substring k s :
  contains k s = true <-> exists a b, s = a +:+ k +:+ b.
Proof.
  split.
  - induction s as [|c s IH]; simpl.
    + rewrite orb_false_r. intros H.
      apply startswith_prefix in H as [b ->]. exists EmptyString, b.
      reflexivity.
    + intros [H|H]%orb_true_iff.
      * apply startswith_prefix in H as [b ->]. exists EmptyString, b.
        reflexivity.
      * destruct (IH H) as (a & b & ->). exists (String c a), b.
        reflexivity.
  - intros (a & b & ->). induction a as [|c a IH].
    + simpl String.append.
      assert (H : startswith (k +:+ b) k = true)
        by (apply startswith_prefix; eauto).
      destruct (k +:+ b); simpl; rewrite H; reflexivity.
    + simpl. rewrite IH. apply orb_true_r.
Qed.

Lemma contains_empty s : contains EmptyString s = true.
Proof. destruct s; reflexivity. Qed.

(** [first_match] is the earliest keyword of the list that occurs in the
    line. *)
Lemma first_match_earliest keywords s k :
  first_match keywords s = Some k
  <-> exists pre post,
        keywords = pre ++ k :: post /\ contains k s = true
        /\ Forall (fun k' => contains k' s = false) pre.
Proof.
  split.
  - induction keywords as [|kw rest IH]; simpl; [discriminate|].
    destruct (contains kw s) eqn:E.
    + intros [= <-]. exists [], rest. repeat split; [exact E|constructor].
    + intros H. destruct (IH H) as (pre & post & -> & Hk & Hpre).
      exists (kw :: pre), post. repeat split; [exact Hk|].
      constructor; assumption.
  - intros (pre & post & -> & Hk & Hpre).
    induction Hpre as [|kw pre Hkw _ IH]; simpl.
    + now rewrite Hk.
    + now rewrite Hkw.
Qed.

Lemma first_match_in keywords s k :
  first_match keywords s = Some k -> k ∈ keywords.
Proof.
  intros H. apply first_match_earliest in H as (pre & post & -> & _).
  apply elem_of_app. right. apply elem_of_cons. now left.
Qed.

Lemma split_route_first_match keywords compact line s st :
  split_route keywords compact line s st
  = match first_match keywords s with
    | Some kw => split_match compact kw line s st
    | None => st
    end.
Proof.
  induction keywords as [|kw rest IH]; simpl; [reflexivity|].
  destruct (contains kw s); [reflexivity|exact IH].
Qed.

(** ** One keyword at a time *)

Ltac unfold_view :=
  unfold view_of, file_of, prev_of, count_of, write; simpl;
  rewrite ?lookup_insert_eq; rewrite ?lookup_insert_ne by done; simpl.

Lemma view_write_same kw s st :
  view_of kw (write kw s st)
  = (file_of st kw ++ [s], prev_of st kw, count_of st kw).
Proof. unfold_view. reflexivity. Qed.

Lemma view_write_other k kw s st :
  k <> kw -> view_of kw (write k s st) = view_of kw st.
Proof. intros H. unfold_view. reflexivity. Qed.

Lemma view_write_previous_same kw st :
  view_of kw (write_previous kw st) = view_write_previous (view_of kw st).
Proof.
  unfold write_previous, view_write_previous.
  unfold view_of at 2. fold (view_of kw st).
  destruct (prev_of st kw) as [q|] eqn:Ep;
    [|unfold view_of; now rewrite Ep].
  destruct (count_of st kw >? 1); rewrite view_write_same, Ep; reflexivity.
Qed.

Lemma view_write_previous_other k kw st :
  k <> kw -> view_of kw (write_previous k st) = view_of kw st.
Proof.
  intros H. unfold write_previous.
  destruct (prev_of st k); [|reflexivity].
  destruct (count_of st k >? 1); now apply view_write_other.
Qed.

Lemma view_split_match_same compact kw line st :
  view_of kw (split_match compact kw line (rstrip_nl line) st)
  = view_match compact (view_of kw st) line.
Proof.
  unfold split_match. unfold view_of at 2.
  cbv beta iota delta [view_match].
  destruct compact; [|apply view_write_same].
  destruct (decide (Some (rstrip_nl line) = prev_of st kw)) as [E|N].
  - unfold_view. reflexivity.
  - pose proof (view_write_previous_same kw st) as H.
    unfold view_of in H at 2.
    rewrite <- H. unfold_view. reflexivity.
Qed.

Lemma view_split_match_other compact k kw line s st :
  k <> kw -> view_of kw (split_match compact k line s st) = view_of kw st.
Proof.
  intros H. unfold split_match.
  destruct compact; [|now apply view_write_other].
  destruct (decide (Some s = prev_of st k)).
  - unfold_view. reflexivity.
  - rewrite <- (view_write_previous_other k kw st H).
    unfold_view. reflexivity.
Qed.

(** A line changes the state of the keyword it is routed to, and of no
    other. *)
Lemma view_split_line keywords compact kw st line :
  view_of kw (split_line keywords compact st line)
  = if routed keywords kw line then view_match compact (view_of kw st) line
    else view_of kw st.
Proof.
  unfold split_line, routed. rewrite split_route_first_match.
  destruct (first_match keywords (rstrip_nl line)) as [k|] eqn:E.
  - destruct (decide (k = kw)) as [->|N].
    + rewrite bool_decide_eq_true_2 by reflexivity.
      apply view_split_match_same.
    + rewrite bool_decide_eq_false_2 by congruence.
      now apply view_split_match_other.
  - rewrite bool_decide_eq_false_2 by discriminate. reflexivity.
Qed.

Lemma view_split_loop keywords compact kw lines : forall st,
  view_of kw (fold_left (split_line keywords compact) lines st)
  = fold_left (view_match compact)
      (List.filter (routed keywords kw) lines) (view_of kw st).
Proof.
  induction lines as [|l r IH]; intros st; simpl; [reflexivity|].
  rewrite IH, view_split_line.
  destruct (routed keywords kw l); reflexivity.
Qed.

Lemma view_split_finish keywords compact kw st :
  view_of kw (split_finish keywords compact st)
  = view_finish keywords compact kw (view_of kw st).
Proof.
  unfold split_finish, view_finish. destruct compact; [|reflexivity].
  revert st. induction keywords as [|k r IH]; intros st; simpl;
    [reflexivity|].
  rewrite IH. destruct (decide (k = kw)) as [->|N].
  - now rewrite view_write_previous_same.
  - now rewrite view_write_previous_other.
Qed.

Lemma split_init_files keywords kw :
  file_of (split_init keywords) kw = [].
Proof.
  unfold file_of, split_init. simpl.
  assert (H : forall d : gmap string (list string),
             default [] (d !! kw) = [] ->
             default []
               (fold_left (fun d kw => <[kw := []]> d) keywords d !! kw)
             = []).
  { induction keywords as [|k r IH]; intros d Hd; simpl; [exact Hd|].
    apply IH. destruct (decide (k = kw)) as [->|N].
    - now rewrite lookup_insert_eq.
    - now rewrite lookup_insert_ne. }
  apply H. now rewrite lookup_empty.
Qed.

(** The stream of a keyword is made from the lines routed to it alone. *)
Lemma stream_split_streams keywords compact kw lines :
  stream (split_streams keywords compact lines) kw
  = fst (fst (view_finish keywords compact kw
                (fold_left (view_match compact)
                   (List.filter (routed keywords kw) lines)
                   (view_of kw (split_init keywords))))).
Proof.
  unfold stream, split_streams.
  rewrite <- view_split_loop, <- view_split_finish. reflexivity.
Qed.

Lemma filter_filter {A} (f : A -> bool) l :
  List.filter f (List.filter f l) = List.filter f l.
Proof.
  induction l as [|x r IH]; simpl; [reflexivity|].
  destruct (f x) eqn:E; simpl; [rewrite E|]; now rewrite ?IH.
Qed.

Lemma fold_view_match_plain lines : forall f p n,
  fold_left (view_match false) lines (f, p, n) = (f ++ lines, p, n).
Proof.
  induction lines as [|l r IH]; intros f p n; simpl.
  - now rewrite app_nil_r.
  - rewrite IH, <- app_assoc. reflexivity.
Qed.

(** ** Routing *)

Lemma stream_only_routed keywords compact kw lines :
  stream (split_streams keywords compact lines) kw
  = stream (split_streams keywords compact
              (List.filter (routed keywords kw) lines)) kw.
Proof. now rewrite !stream_split_streams, filter_filter. Qed.

Lemma stream_plain keywords kw lines :
  stream (split_streams keywords false lines) kw
  = List.filter (routed keywords kw) lines.
Proof.
  rewrite stream_split_streams. unfold view_finish, view_of.
  rewrite fold_view_match_plain, split_init_files. reflexivity.
Qed.

(** ** What a stream holds *)

Lemma lookup_constant_map {V} (v : V) (keywords : list string) kw :
  default v
    ((list_to_map ((fun k => (k, v)) <$> keywords) : gmap string V) !! kw)
  = v.
Proof.
  destruct (_ !! kw) as [x|] eqn:E; [|reflexivity].
  apply elem_of_list_to_map_2, list_elem_of_fmap in E as (k & [= _ ->] & _).
  reflexivity.
Qed.

Lemma split_init_view keywords kw :
  view_of kw (split_init keywords) = ([], None, 0).
Proof.
  unfold view_of. rewrite split_init_files.
  unfold prev_of, count_of, split_init. simpl.
  now rewrite !lookup_constant_map.
Qed.

Lemma view_write_previous_yield f p n :
  view_write_previous (f, p, n)
  = (f ++ (with_newline <$> yield_previous p n), p, n).
Proof.
  unfold view_write_previous, yield_previous. destruct p as [q|].
  - destruct (n >? 1); reflexivity.
  - simpl. now rewrite app_nil_r.
Qed.

Lemma view_match_compact f p n l :
  view_match true (f, p, n) l
  = if decide (Some (rstrip_nl l) = p) then (f, p, n + 1)
    else (f ++ (with_newline <$> yield_previous p n), Some (rstrip_nl l), 1).
Proof.
  cbv beta iota delta [view_match].
  destruct (decide (Some (rstrip_nl l) = p)); [reflexivity|].
  now rewrite view_write_previous_yield.
Qed.

(** The loop of [process_split] on the lines of one keyword is the loop of
    [compact_lines]: what it has written and what it still holds. *)
Lemma fold_view_match_compact lines : forall f p n,
  exists body p' n',
    fold_left (view_match true) lines (f, p, n)
    = (f ++ (with_newline <$> body), p', n')
    /\ compact_lines_from p n lines = body ++ yield_previous p' n'
    /\ (p' = None -> p = None /\ body = []).
Proof.
  induction lines as [|l r IH]; intros f p n.
  - exists [], p, n. simpl. rewrite app_nil_r. auto.
  - cbn [fold_left compact_lines_from]. rewrite view_match_compact.
    destruct (decide (Some (rstrip_nl l) = p)) as [E|N].
    + apply IH.
    + destruct (IH (f ++ (with_newline <$> yield_previous p n))
                  (Some (rstrip_nl l)) 1)
        as (body & p' & n' & -> & -> & Hnone).
      exists (yield_previous p n ++ body), p', n'.
      rewrite fmap_app, !app_assoc. repeat split; try reflexivity;
        destruct (Hnone H); discriminate.
Qed.

Lemma view_finish_iter keywords kw : forall v,
  view_finish keywords true kw v
  = Nat.iter (length (filter (fun k => k = kw) keywords))
      view_write_previous v.
Proof.
  unfold view_finish.
  induction keywords as [|k r IH]; intros v; [reflexivity|].
  simpl fold_left. rewrite IH, filter_cons.
  destruct (decide (k = kw)); [|reflexivity].
  simpl length. now rewrite Nat.iter_succ_r.
Qed.

Lemma view_write_previous_iter k : forall f p n,
  Nat.iter k view_write_previous (f, p, n)
  = (f ++ concat (replicate k (with_newline <$> yield_previous p n)), p, n).
Proof.
  induction k as [|k IH]; intros f p n.
  - simpl. now rewrite app_nil_r.
  - rewrite Nat.iter_succ_r, view_write_previous_yield, IH.
    simpl. now rewrite app_assoc.
Qed.

Lemma concat_replicate_single {A} (k : nat) (x : A) :
  concat (replicate k [x]) = replicate k x.
Proof. induction k as [|k IH]; [reflexivity|]. simpl. now rewrite IH. Qed.

Lemma concat_replicate_nil {A} (k : nat) :
  concat (replicate k ([] : list A)) = [].
Proof. induction k as [|k IH]; [reflexivity|exact IH]. Qed.

(** What the file of a keyword holds at the end, in both modes. *)
Lemma stream_expected keywords compact kw lines :
  stream (split_streams keywords compact lines) kw
  = expected_stream compact (occurrences kw keywords)
      (List.filter (routed keywords kw) lines).
Proof.
  rewrite stream_split_streams, split_init_view. unfold expected_stream.
  set (mine := List.filter _ _).
  destruct compact.
  - destruct (fold_view_match_compact mine [] None 0)
      as (body & p' & n' & -> & Hc & Hnone).
    unfold compact_lines. rewrite Hc.
    rewrite view_finish_iter, view_write_previous_iter. simpl fst.
    fold (occurrences kw keywords).
    destruct p' as [q|].
    + assert (Hx : exists x, yield_previous (Some q) n' = [x])
        by (unfold yield_previous; destruct (n' >? 1); eauto).
      destruct Hx as [x ->].
      rewrite removelast_last, last_snoc. simpl from_option.
      rewrite fmap_app, fmap_replicate.
      change (with_newline <$> [x]) with [with_newline x].
      now rewrite concat_replicate_single.
    + destruct (Hnone eq_refl) as [_ ->]. simpl.
      now rewrite concat_replicate_nil.
  - unfold view_finish. now rewrite fold_view_match_plain.
Qed.

(** C6.  In [process_split] the keywords are tried in the order given, by
    substring test on the line without its trailing newlines, and the line
    goes to the first that occurs in it.  The stream of a keyword is made of
    the surviving lines routed to it and of nothing else: without [-c] it
    is exactly those lines, with [-c] exactly the records of [compact_lines]
    on those lines, as the program writes them.  A line that matches no
    keyword is routed nowhere.  With the keywords [WARN], [ERROR] a line
    containing both goes to [WARN] and not to [ERROR]. *)
Theorem split_routes_to_first_match
  (lines keywords : list string) (compact : bool)
  (start_line : Z) (end_line : option Z) (ts_start ts_end : option float) :
  let survivors :=
    lines_filtered start_line end_line ts_start ts_end lines in
  let streams :=
    process_split lines keywords compact start_line end_line ts_start
      ts_end in
  (forall s k,
     first_match keywords s = Some k
     <-> exists pre post,
           keywords = pre ++ k :: post /\ contains k s = true
           /\ Forall (fun k' => contains k' s = false) pre)
  /\ (forall k s, contains k s = true <-> exists a b, s = a +:+ k +:+ b)
  /\ (forall kw,
        stream streams kw
        = expected_stream compact (occurrences kw keywords)
            (List.filter (routed keywords kw) survivors))
  /\ (compact = false ->
      forall kw,
        stream streams kw = List.filter (routed keywords kw) survivors)
  /\ (forall line kw,
        first_match keywords (rstrip_nl line) = None ->
        routed keywords kw line = false)
  /\ (keywords = ["WARN"; "ERROR"] ->
      forall line,
        contains "WARN" (rstrip_nl line) = true ->
        contains "ERROR" (rstrip_nl line) = true ->
        routed keywords "WARN" line = true
        /\ routed keywords "ERROR" line = false
        /\ (compact = false -> line ∈ survivors ->
            line ∈ stream streams "WARN"
            /\ line ∉ stream streams "ERROR")).
Proof.
  intros survivors streams.
  assert (Hplain : compact = false -> forall kw,
            stream streams kw = List.filter (routed keywords kw) survivors).
  { intros -> kw. apply stream_plain. }
  split; [intros s k; apply first_match_earliest|].
  split; [apply contains_substring|].
  split; [intros kw; apply stream_expected|].
  split; [exact Hplain|].
  split.
  { intros line kw H. unfold routed. rewrite H.
    apply bool_decide_eq_false_2. discriminate. }
  intros -> line Hw He.
  assert (R1 : routed ["WARN"; "ERROR"] "WARN" line = true).
  { unfold routed. simpl. rewrite Hw. now apply bool_decide_eq_true_2. }
  assert (R2 : routed ["WARN"; "ERROR"] "ERROR" line = false).
  { unfold routed. simpl. rewrite Hw. now apply bool_decide_eq_false_2. }
  split; [exact R1|]. split; [exact R2|].
  intros Hc Hin. rewrite !Hplain by exact Hc. split.
  - apply list_elem_of_In, filter_In. split; [|exact R1].
    now apply list_elem_of_In.
  - intros H. apply list_elem_of_In, filter_In in H as [_ H]. congruence.
Qed.

Lemma split_routes_to_first_match_witness :
  (process_split
      ["1 WARN disk" +:+ NL; "2 ERROR after WARN" +:+ NL; "3 info" +:+ NL;
       "4 ERROR x" +:+ NL; "5 warn lower" +:+ NL]
      ["WARN"; "ERROR"] false 1 None None None
   = {[ "WARN" := ["1 WARN disk" +:+ NL; "2 ERROR after WARN" +:+ NL];
        "ERROR" := ["4 ERROR x" +:+ NL] ]}
   /\ ("2 ERROR after WARN" +:+ NL)
        ∈ stream
            (process_split
               ["1 WARN disk" +:+ NL; "2 ERROR after WARN" +:+ NL;
                "3 info" +:+ NL; "4 ERROR x" +:+ NL; "5 warn lower" +:+ NL]
               ["WARN"; "ERROR"] false 1 None None None)
            "WARN"
   /\ ("2 ERROR after WARN" +:+ NL)
        ∉ stream
            (process_split
               ["1 WARN disk" +:+ NL; "2 ERROR after WARN" +:+ NL;
                "3 info" +:+ NL; "4 ERROR x" +:+ NL; "5 warn lower" +:+ NL]
               ["WARN"; "ERROR"] false 1 None None None)
            "ERROR")
  /\ stream
       (process_split
          ["WARN a" +:+ NL; "info" +:+ NL; "WARN a" +:+ NL;
           "ERROR and WARN" +:+ NL; "ERROR b" +:+ NL; "ERROR b" +:+ NL]
          ["WARN"; "ERROR"] true 1 None None None)
       "WARN"
     = ["WARN a (x2)" +:+ NL; "ERROR and WARN" +:+ NL]
  /\ stream
       (process_split
          ["WARN a" +:+ NL; "info" +:+ NL; "WARN a" +:+ NL;
           "ERROR and WARN" +:+ NL; "ERROR b" +:+ NL; "ERROR b" +:+ NL]
          ["WARN"; "ERROR"] true 1 None None None)
       "ERROR"
     = ["ERROR b (x2)" +:+ NL].
Proof.
  split.
  - set (lines := ["1 WARN disk" +:+ NL; "2 ERROR after WARN" +:+ NL;
                   "3 info" +:+ NL; "4 ERROR x" +:+ NL;
                   "5 warn lower" +:+ NL]).
    split; [vm_compute; reflexivity|].
    destruct (split_routes_to_first_match lines ["WARN"; "ERROR"] false
                1 None None None) as (_ & _ & _ & _ & _ & H).
    apply (H eq_refl ("2 ERROR after WARN" +:+ NL)).
    + vm_compute. reflexivity.
    + vm_compute. reflexivity.
    + reflexivity.
    + vm_compute. apply elem_of_cons. right. apply elem_of_cons. now left.
  - set (lines := ["WARN a" +:+ NL; "info" +:+ NL; "WARN a" +:+ NL;
                   "ERROR and WARN" +:+ NL; "ERROR b" +:+ NL;
                   "ERROR b" +:+ NL]).
    destruct (split_routes_to_first_match lines ["WARN"; "ERROR"] true
                1 None None None) as (_ & _ & H & _).
    split.
    + refine (eq_trans (H "WARN") _). vm_compute. reflexivity.
    + refine (eq_trans (H "ERROR") _). vm_compute. reflexivity.
Defined.

(** ** An empty keyword *)

(** C10, as stated, fails: for [-s "ERR,"] the keyword list is [ERR] and the
    empty string; the line ["ERR x"] survives, goes to the stream of [ERR]
    and the stream of the empty keyword stays empty. *)
Lemma empty_keyword_does_not_take_every_line :
  split_keywords "ERR," = ["ERR"; EmptyString]
  /\ EmptyString ∈ ["ERR"; EmptyString]
  /\ lines_filtered 1 None None None ["ERR x" +:+ NL] = ["ERR x" +:+ NL]
  /\ first_match ["ERR"; EmptyString] (rstrip_nl ("ERR x" +:+ NL))
     = Some "ERR"
  /\ process_split ["ERR x" +:+ NL] ["ERR"; EmptyString] false
       1 None None None
     = {[ "ERR" := ["ERR x" +:+ NL]; EmptyString := [] ]}
  /\ process_split ["ERR x" +:+ NL] ["ERR"; EmptyString] true
       1 None None None
     = {[ "ERR" := ["ERR x" +:+ NL]; EmptyString := [] ]}.
Proof.
  split; [vm_compute; reflexivity|].
  split; [apply elem_of_cons; right; apply elem_of_cons; now left|].
  repeat split; vm_compute; reflexivity.
Qed.

(** C10, amended.  When the keyword list contains the empty string, every
    line has a first matching keyword, so no surviving line is dropped: the
    line goes to the empty keyword unless a keyword listed before it occurs
    in the line, and then to the first such keyword.  The stream of every
    keyword is made of the surviving lines that go to it in this way, and
    without [-c] a surviving line is in the stream of that keyword and of
    no other. *)
Theorem empty_keyword_takes_unmatched_lines
  (lines keywords pre post : list string) (compact : bool)
  (start_line : Z) (end_line : option Z) (ts_start ts_end : option float) :
  keywords = pre ++ EmptyString :: post ->
  let survivors :=
    lines_filtered start_line end_line ts_start ts_end lines in
  let streams :=
    process_split lines keywords compact start_line end_line ts_start
      ts_end in
  (forall s,
     first_match keywords s
     = Some (default EmptyString (first_match pre s)))
  /\ (forall s,
        first_match pre s = None
        <-> Forall (fun k => contains k s = false) pre)
  /\ (forall s k,
        first_match pre s = Some k
        <-> exists a b,
              pre = a ++ k :: b /\ contains k s = true
              /\ Forall (fun k' => contains k' s = false) a)
  /\ (forall kw,
        stream streams kw
        = expected_stream compact (occurrences kw keywords)
            (List.filter (fun line => bool_decide (target pre line = kw))
               survivors))
  /\ (compact = false ->
      forall line, line ∈ survivors ->
      forall kw, line ∈ stream streams kw <-> kw = target pre line).
Proof.
  intros Hk survivors streams.
  assert (Hto : forall s,
            first_match keywords s
            = Some (default EmptyString (first_match pre s))).
  { intros s. rewrite Hk. clear. induction pre as [|kw r IH]; simpl.
    - now rewrite contains_empty.
    - destruct (contains kw s); [reflexivity|exact IH]. }
  assert (Hrouted : forall kw line,
            routed keywords kw line = bool_decide (target pre line = kw)).
  { intros kw line. unfold routed, target. rewrite Hto.
    apply bool_decide_ext. split; congruence. }
  split; [exact Hto|]. split.
  { intros s. clear. induction pre as [|kw r IH]; simpl.
    - split; [constructor|reflexivity].
    - destruct (contains kw s) eqn:E.
      + split; [discriminate|].
        intros H. apply Forall_cons in H as [H _]. congruence.
      + rewrite IH. split.
        * intros H. now constructor.
        * intros H. now apply Forall_cons in H as [_ H]. }
  split; [intros s k; apply first_match_earliest|].
  split.
  { intros kw. subst streams. unfold process_split.
    rewrite stream_expected. f_equal.
    apply filter_ext. intros line. apply Hrouted. }
  intros -> line Hin kw. subst streams. unfold process_split.
  rewrite stream_plain, list_elem_of_In, filter_In, Hrouted,
    bool_decide_eq_true, <- list_elem_of_In.
  split; [intros [_ H]; now symmetry|intros ->; now split].
Qed.

Lemma empty_keyword_takes_unmatched_lines_witness :
  split_keywords "," = [EmptyString; EmptyString]
  /\ (forall s, first_match [EmptyString; EmptyString] s = Some EmptyString)
  /\ first_match ["ERR"; EmptyString] "all fine" = Some EmptyString
  /\ first_match ["ERR"; EmptyString] "ERR x" = Some "ERR"
  /\ (forall kw,
        ("all fine" +:+ NL)
          ∈ stream (process_split ["ERR x" +:+ NL; "all fine" +:+ NL]
                      ["ERR"; EmptyString] false 1 None None None) kw
        <-> kw = EmptyString)
  /\ stream
       (process_split
          ["ERR x" +:+ NL; "all fine" +:+ NL; "all fine" +:+ NL]
          ["ERR"; EmptyString] true 1 None None None) EmptyString
     = ["all fine (x2)" +:+ NL].
Proof.
  split; [vm_compute; reflexivity|].
  split.
  { intros s.
    apply (empty_keyword_takes_unmatched_lines [] [EmptyString; EmptyString]
             [] [EmptyString] false 1 None None None eq_refl). }
  destruct (empty_keyword_takes_unmatched_lines
              ["ERR x" +:+ NL; "all fine" +:+ NL] ["ERR"; EmptyString]
              ["ERR"] [] false 1 None None None eq_refl)
    as (H1 & _ & _ & _ & H2).
  split; [exact (H1 "all fine")|].
  split; [exact (H1 "ERR x")|].
  split.
  - apply (H2 eq_refl).
    apply elem_of_cons. right. apply elem_of_cons. now left.
  - destruct (empty_keyword_takes_unmatched_lines
                ["ERR x" +:+ NL; "all fine" +:+ NL; "all fine" +:+ NL]
                ["ERR"; EmptyString] ["ERR"] [] true 1 None None None
                eq_refl) as (_ & _ & _ & H3 & _).
    refine (eq_trans (H3 EmptyString) _). vm_compute. reflexivity.
Defined.

(** * Further properties *)

(** ** The timestamp extractor *)

Lemma rstrip_nl_idempotent s : rstrip_nl (rstrip_nl s) = rstrip_nl s.
Proof.
  induction s as [|c r IH]; [reflexivity|]. simpl.
  destruct (rstrip_nl r) as [|d r'] eqn:E.
  - destruct (Ascii.eqb c nl) eqn:Hc; [reflexivity|].
    simpl. now rewrite Hc.
  - change (rstrip_nl (String c (String d r'))) with
      (match rstrip_nl (String d r') with
       | EmptyString =>
           if Ascii.eqb c nl then EmptyString else String c EmptyString
       | r'' => String c r''
       end).
    now rewrite IH.
Qed.

Lemma has_digit_app s t : has_digit (s +:+ t) = has_digit s || has_digit t.
Proof.
  induction s as [|c r IH]; [reflexivity|]. simpl.
  now rewrite IH, orb_assoc.
Qed.

(** What the regular expression finds: the line is cut into the text before
    the number, which has no digit, the number, which is a run of digits or
    two runs joined by a dot, and the text after it, which does not go on
    with a digit. *)
Lemma re_search_number_match line before m after :
  re_search_number line = Some (before, m, after) ->
  line = before +:+ m +:+ after
  /\ has_digit before = false
  /\ (exists ds fs,
        all_digits ds = true /\ ds <> EmptyString /\ all_digits fs = true
        /\ (m = ds \/ (fs <> EmptyString /\ m = ds +:+ "." +:+ fs)))
  /\ match after with
     | String c _ => is_digit c = false
     | EmptyString => True
     end.
Proof.
  revert before. induction line as [|c r IH]; intros before; simpl.
  - discriminate.
  - destruct (is_digit c) eqn:Hc.
    + destruct (span_digits r) as [ds' rest] eqn:Es.
      destruct (span_digits_spec _ _ _ Es) as (Hr & Hds' & Hrest).
      assert (Hds : all_digits (String c ds') = true)
        by (simpl; now rewrite Hc, Hds').
      assert (Hplain : String c r = EmptyString +:+ String c ds' +:+ rest)
        by (simpl; now rewrite Hr).
      assert (Hint : exists ds fs,
                all_digits ds = true /\ ds <> EmptyString
                /\ all_digits fs = true
                /\ (String c ds' = ds
                    \/ (fs <> EmptyString
                        /\ String c ds' = ds +:+ "." +:+ fs))).
      { exists (String c ds'), EmptyString.
        split; [exact Hds|]. split; [discriminate|].
        split; [reflexivity|]. now left. }
      destruct rest as [|d rest'].
      { intros [= <- <- <-].
        refine (conj Hplain (conj eq_refl (conj Hint I))). }
      destruct (Ascii.eqb d ".") eqn:Hd.
      * apply Ascii.eqb_eq in Hd as ->.
        destruct (span_digits rest') as [fs rest''] eqn:Ef.
        destruct (span_digits_spec _ _ _ Ef) as (Hr' & Hfs & Hrest').
        destruct fs as [|f fs'].
        { intros [= <- <- <-].
          refine (conj Hplain (conj eq_refl (conj Hint Hrest))). }
        intros [= <- <- <-].
        refine (conj _ (conj eq_refl (conj _ Hrest'))).
        -- simpl. rewrite Hr, Hr'. f_equal.
           now rewrite !append_assoc.
        -- exists (String c ds'), (String f fs').
           split; [exact Hds|]. split; [discriminate|].
           split; [exact Hfs|]. right. split; [discriminate|reflexivity].
      * intros [= <- <- <-].
        refine (conj Hplain (conj eq_refl (conj Hint Hrest))).
    + destruct (re_search_number r) as [[[b m'] a]|] eqn:E; [|discriminate].
      intros [= <- <- <-].
      destruct (IH b eq_refl) as (Hl & Hb & Hm & Ha).
      refine (conj _ (conj _ (conj Hm Ha))).
      -- simpl. now rewrite Hl.
      -- simpl. now rewrite Hc.
Qed.

Lemma re_search_number_none line :
  re_search_number line = None <-> has_digit line = false.
Proof.
  induction line as [|c r IH]; simpl; [tauto|].
  destruct (is_digit c) eqn:Hc.
  - split; [|discriminate].
    destruct (span_digits r) as [ds rest].
    destruct rest as [|d rest']; [discriminate|].
    destruct (Ascii.eqb d "."); [|discriminate].
    destruct (span_digits rest') as [fs rest''].
    destruct (is_empty fs); discriminate.
  - simpl. rewrite <- IH.
    destruct (re_search_number r) as [[[b m] a]|]; split;
      congruence || discriminate.
Qed.

(** X1.  [extract_timestamp_and_content] raises on no line.  The timestamp
    is [None] exactly when the line has no decimal digit, and then the
    content is the line without its trailing newlines; the content never
    ends with a newline. *)
Theorem extract_total (line : string) :
  exists ts content,
    extract_timestamp_and_content line = Ok (ts, content)
    /\ (ts = None <-> has_digit line = false)
    /\ (has_digit line = false -> content = rstrip_nl line)
    /\ rstrip_nl content = content.
Proof.
  unfold extract_timestamp_and_content.
  destruct (re_search_number line) as [[[b m] a]|] eqn:E.
  - destruct (re_search_number_float _ _ _ _ E) as [ts ->]. simpl.
    assert (Hd : has_digit line = true).
    { destruct (has_digit line) eqn:H; [reflexivity|].
      apply re_search_number_none in H. congruence. }
    exists (Some ts), (rstrip_nl (b +:+ a)). rewrite Hd.
    repeat split; try discriminate. apply rstrip_nl_idempotent.
  - exists None, (rstrip_nl line).
    apply re_search_number_none in E. rewrite E.
    repeat split; auto. apply rstrip_nl_idempotent.
Qed.

(** X2.  When a timestamp is found, the line is the content before it, a
    decimal literal and the content after it: the text before the literal
    has no digit, the text after it does not go on with a digit, the
    timestamp is the float of the literal and the content is the line
    with the literal cut out and the trailing newlines removed. *)
Theorem extract_cuts_first_number (line content : string) (ts : float) :
  extract_timestamp_and_content line = Ok (Some ts, content) ->
  exists before m after,
    line = before +:+ m +:+ after
    /\ has_digit before = false
    /\ digits_and_dots m = true
    /\ match after with
       | String c _ => is_digit c = false
       | EmptyString => True
       end
    /\ float_of_str m = Ok ts
    /\ content = rstrip_nl (before +:+ after).
Proof.
  unfold extract_timestamp_and_content.
  destruct (re_search_number line) as [[[b m] a]|] eqn:E; [|discriminate].
  destruct (re_search_number_match _ _ _ _ E)
    as (Hl & Hb & (ds & fs & Hds & _ & Hfs & Hm) & Ha).
  destruct (float_of_str m) as [t|e] eqn:Ef; simpl; [|discriminate].
  intros [= <- <-]. exists b, m, a. repeat split; auto.
  destruct Hm as [->|[_ ->]].
  - now apply all_digits_plain.
  - rewrite !digits_and_dots_app.
    rewrite (all_digits_plain _ Hds), (all_digits_plain _ Hfs).
    reflexivity.
Qed.

Lemma extract_cuts_first_number_witness :
  exists before m after,
    "id42 100.0" = before +:+ m +:+ after
    /\ has_digit before = false
    /\ digits_and_dots m = true
    /\ match after with
       | String c _ => is_digit c = false
       | EmptyString => True
       end
    /\ float_of_str m = Ok ts_42
    /\ "id 100.0" = rstrip_nl (before +:+ after).
Proof.
  apply (extract_cuts_first_number "id42 100.0" "id 100.0" ts_42).
  vm_compute. reflexivity.
Defined.

(** ** The sign of a parsed number *)

Lemma shr_1_nonneg mrs : 0 <= shr_m mrs -> 0 <= shr_m (shr_1 mrs).
Proof.
  destruct mrs as [m r s]. destruct m as [|[p|p|]|[p|p|]]; simpl; lia.
Qed.

Lemma iter_pos_shr_1_nonneg p : forall mrs,
  0 <= shr_m mrs -> 0 <= shr_m (SpecFloat.iter_pos shr_1 p mrs).
Proof.
  induction p as [p IH|p IH|]; intros mrs H; simpl.
  - apply IH, IH, shr_1_nonneg, H.
  - apply IH, IH, H.
  - apply shr_1_nonneg, H.
Qed.

Lemma shr_fexp_nonneg m e l :
  0 <= m -> 0 <= shr_m (fst (shr_fexp prec emax m e l)).
Proof.
  intros H. unfold shr_fexp, shr.
  assert (H0 : 0 <= shr_m (shr_record_of_loc m l))
    by (destruct l as [|[]]; exact H).
  destruct (fexp prec emax (Zdigits2 m + e) - e); simpl; auto.
  now apply iter_pos_shr_1_nonneg.
Qed.

Lemma round_nearest_even_nonneg m l : 0 <= m -> 0 <= round_nearest_even m l.
Proof.
  intros H. destruct l as [|[]]; simpl; try lia.
  destruct (Z.even m); lia.
Qed.

(** Rounding a non-negative mantissa gives a number that is no NaN and has
    the sign asked for. *)
Lemma binary_round_aux_sign sx mx ex lx :
  0 <= mx ->
  is_nan (binary_round_aux prec emax sx mx ex lx) = false
  /\ is_negative (binary_round_aux prec emax sx mx ex lx) = sx.
Proof.
  intros H. unfold binary_round_aux.
  pose proof (shr_fexp_nonneg mx ex lx H) as H1.
  destruct (shr_fexp prec emax mx ex lx) as [mrs' e'].
  pose proof (shr_fexp_nonneg _ e' loc_Exact
                (round_nearest_even_nonneg _ (loc_of_shr_record mrs') H1))
    as H2.
  destruct (shr_fexp prec emax _ e' loc_Exact) as [mrs'' e''].
  simpl in H2. destruct (shr_m mrs'') as [|m|m]; [split; reflexivity| |lia].
  destruct (e'' <=? emax - prec); split; reflexivity.
Qed.

Lemma of_decimal_sign neg m e :
  is_nan (of_decimal neg m e) = false
  /\ is_negative (of_decimal neg m e) = neg.
Proof.
  unfold of_decimal. destruct m as [|p]; [split; reflexivity|].
  destruct (0 <=? e).
  - unfold binary_round.
    destruct (shl_align _ _ _) as [mz ez].
    apply binary_round_aux_sign. lia.
  - unfold SFdiv, SFdiv_core_binary.
    set (m2 := Z.pos (Z.to_pos (10 ^ (- e)))).
    set (m' := match _ with Z0 => _ | Zpos _ => _ | Zneg _ => _ end).
    assert (Hm' : 0 <= m').
    { subst m'. destruct (0 - 0 - _); try lia.
      apply Z.shiftl_nonneg. lia. }
    pose proof (Z.div_pos m' m2 Hm' ltac:(subst m2; lia)) as Hq.
    unfold Z.div in Hq. destruct (Z.div_eucl m' m2) as [q r].
    simpl in Hq. rewrite xorb_false_r.
    now apply binary_round_aux_sign.
Qed.

(** X3.  A timestamp that [extract_timestamp_and_content] returns is never
    a NaN and never negative, so it compares with every bound and with
    every other timestamp of its group. *)
Theorem extract_timestamp_is_a_number (line content : string) (ts : float) :
  extract_timestamp_and_content line = Ok (Some ts, content) ->
  is_nan ts = false /\ is_negative ts = false.
Proof.
  unfold extract_timestamp_and_content.
  destruct (re_search_number line) as [[[b m] a]|] eqn:E; [|discriminate].
  destruct (re_search_number_match _ _ _ _ E)
    as (_ & _ & (ds & fs & Hds & Hne & Hfs & Hm) & _).
  destruct (float_of_str_decimal ds fs Hds Hne Hfs) as [Hint Hfrac].
  destruct Hm as [->|[Hfne ->]].
  - rewrite Hint. simpl. intros [= <- _]. apply of_decimal_sign.
  - rewrite (Hfrac Hfne). simpl. intros [= <- _]. apply of_decimal_sign.
Qed.

Lemma extract_timestamp_is_a_number_witness :
  is_nan ts_42 = false /\ is_negative ts_42 = false.
Proof.
  apply (extract_timestamp_is_a_number "id42 100.0" "id 100.0" ts_42).
  vm_compute. reflexivity.
Defined.

(** ** [compact_lines] run by run *)

Lemma compact_lines_from_same s lines : forall count,
  Forall (fun l => rstrip_nl l = s) lines ->
  compact_lines_from (Some s) count lines
  = yield_previous (Some s) (count + Z.of_nat (length lines)).
Proof.
  induction lines as [|l r IH]; intros count Hall.
  - simpl. now rewrite Z.add_0_r.
  - apply Forall_cons in Hall as [Hl Hall]. simpl compact_lines_from.
    rewrite Hl.
    destruct (decide (Some s = Some s)) as [_|N]; [|congruence].
    rewrite IH by exact Hall. f_equal.
    rewrite length_cons, Nat2Z.inj_succ. lia.
Qed.

(** X4.  Two or more consecutive lines that are equal once their trailing
    newlines are stripped are yielded by [compact_lines] as the one record
    [line (xN)], where N is their number. *)
Theorem compact_lines_of_a_run (lines : list string) (s : string) :
  (2 <= length lines)%nat ->
  Forall (fun l => rstrip_nl l = s) lines ->
  compact_lines lines = [repeated s (Z.of_nat (length lines))].
Proof.
  intros Hlen Hall. destruct lines as [|l r]; [simpl in Hlen; lia|].
  pose proof Hall as Hall'. apply Forall_cons in Hall' as [Hl Hr].
  unfold compact_lines. simpl compact_lines_from.
  destruct (decide (Some (rstrip_nl l) = None)) as [E|_]; [discriminate|].
  rewrite Hl, (compact_lines_from_same s r 1 Hr). simpl.
  replace (1 + Z.of_nat (length r)) with (Z.of_nat (length (l :: r)))
    by (simpl length; lia).
  destruct (Z.gtb_spec (Z.of_nat (length (l :: r))) 1) as [_|H];
    [reflexivity|lia].
Qed.

Lemma compact_lines_of_a_run_witness :
  compact_lines ["up" +:+ NL; "up" +:+ NL +:+ NL; "up"] = ["up (x3)"].
Proof.
  apply (compact_lines_of_a_run ["up" +:+ NL; "up" +:+ NL +:+ NL; "up"] "up").
  - simpl. lia.
  - repeat (apply Forall_cons; split; [reflexivity|]). apply Forall_nil.
    exact I.
Defined.

Lemma compact_lines_from_app a : forall p count b,
  (forall y, head b = Some y ->
     Some (rstrip_nl y)
     <> match last a with Some x => Some (rstrip_nl x) | None => p end) ->
  compact_lines_from p count (a ++ b)
  = compact_lines_from p count a ++ compact_lines b.
Proof.
  induction a as [|l a IH]; intros p count b Hb.
  - simpl. destruct b as [|y b]; [now rewrite app_nil_r|].
    unfold compact_lines. simpl.
    destruct (decide (Some (rstrip_nl y) = p)) as [E|_].
    { exfalso. apply (Hb y eq_refl). exact E. }
    destruct (decide (Some (rstrip_nl y) = None)) as [E|_]; [discriminate|].
    reflexivity.
  - simpl.
    assert (Hb' : forall p', p' = Some (rstrip_nl l) \/ a <> [] ->
              forall y, head b = Some y ->
              Some (rstrip_nl y)
              <> match last a with
                 | Some x => Some (rstrip_nl x)
                 | None => p'
                 end).
    { intros p' Hp y Hy. specialize (Hb y Hy).
      destruct a as [|x a'].
      - destruct Hp as [->|Hp]; [exact Hb|congruence].
      - rewrite last_cons in Hb.
        destruct (last (x :: a')) eqn:El; [exact Hb|].
        apply last_None in El. discriminate. }
    destruct (decide (Some (rstrip_nl l) = p)) as [E|_].
    + apply IH. apply Hb'. left. now rewrite E.
    + rewrite IH by (apply Hb'; now left). now rewrite app_assoc.
Qed.

(** X5.  Where two consecutive lines differ once stripped, the input of
    [compact_lines] can be cut: the output for the whole is the output for
    the first part followed by the output for the second. *)
Theorem compact_lines_app (a b : list string) :
  (forall x y, last a = Some x -> head b = Some y ->
     rstrip_nl x <> rstrip_nl y) ->
  compact_lines (a ++ b) = compact_lines a ++ compact_lines b.
Proof.
  intros H. unfold compact_lines at 1 2. apply compact_lines_from_app.
  intros y Hy. destruct (last a) as [x|] eqn:Ex; [|discriminate].
  intros [= E]. apply (H x y eq_refl Hy). congruence.
Qed.

Lemma compact_lines_app_witness :
  compact_lines (["a" +:+ NL; "a" +:+ NL] ++ ["b" +:+ NL; "b" +:+ NL; "c"])
  = ["a (x2)"] ++ ["b (x2)"; "c"].
Proof.
  apply (compact_lines_app ["a" +:+ NL; "a" +:+ NL]
           ["b" +:+ NL; "b" +:+ NL; "c"]).
  intros x y [= <-] [= <-]. discriminate.
Defined.

Lemma compact_lines_from_length lines : forall p count,
  (length (compact_lines_from p count lines)
   <= length lines + length (yield_previous p count))%nat.
Proof.
  assert (Hy : forall p count,
            (length (yield_previous p count) <= 1)%nat).
  { intros [q|] count; simpl; [|lia]. destruct (count >? 1); simpl; lia. }
  induction lines as [|l r IH]; intros p count; simpl; [lia|].
  destruct (decide (Some (rstrip_nl l) = p)) as [E|N].
  - specialize (IH p (count + 1)).
    assert (length (yield_previous p (count + 1)) = 1)%nat
      by (rewrite <- E; simpl; destruct (count + 1 >? 1); reflexivity).
    assert (length (yield_previous p count) = 1)%nat
      by (rewrite <- E; simpl; destruct (count >? 1); reflexivity).
    lia.
  - rewrite length_app. specialize (IH (Some (rstrip_nl l)) 1).
    simpl in IH. lia.
Qed.

(** X6.  [compact_lines] never yields more records than it reads lines, and
    it yields nothing only for an empty input. *)
Theorem compact_lines_length (lines : list string) :
  (length (compact_lines lines) <= length lines)%nat
  /\ (compact_lines lines = [] <-> lines = []).
Proof.
  split.
  - pose proof (compact_lines_from_length lines None 0) as H.
    simpl in H. unfold compact_lines. lia.
  - split; [|intros ->; reflexivity].
    destruct lines as [|l r]; [reflexivity|].
    unfold compact_lines. simpl.
    destruct (decide (Some (rstrip_nl l) = None)) as [E|_]; [discriminate|].
    simpl. intros H. exfalso. revert H.
    generalize (rstrip_nl l) 1. clear l.
    induction r as [|l r IH]; intros s count; simpl.
    + destruct (count >? 1); discriminate.
    + destruct (decide (Some (rstrip_nl l) = Some s)); [apply IH|].
      destruct (count >? 1); discriminate.
Qed.

(** ** [lines_filtered] by line numbers *)

Section LineRange.

Variable start_line : Z.
Variable end_line : option Z.

Abbreviation by_lines := (lines_filtered_from start_line end_line None None).

(** Below the range the lines are skipped. *)
Lemma lines_filtered_from_skip lines : forall i,
  i <= start_line ->
  by_lines i lines = by_lines start_line (drop (Z.to_nat (start_line - i)) lines).
Proof.
  induction lines as [|l r IH]; intros i Hi.
  - now rewrite drop_nil.
  - destruct (Z.eq_dec i start_line) as [->|Hne].
    + now rewrite Z.sub_diag.
    + simpl lines_filtered_from at 1.
      destruct (Z.ltb_spec i start_line) as [_|H]; [|lia].
      rewrite IH by lia.
      replace (Z.to_nat (start_line - i))
        with (S (Z.to_nat (start_line - (i + 1)))) by lia.
      reflexivity.
Qed.

(** Inside the range they are yielded up to the upper bound. *)
Lemma lines_filtered_from_inside lines : forall i,
  start_line <= i ->
  by_lines i lines
  = match end_line with
    | Some e => take (Z.to_nat (e - i + 1)) lines
    | None => lines
    end.
Proof.
  induction lines as [|l r IH]; intros i Hi.
  - destruct end_line; [now rewrite take_nil|reflexivity].
  - simpl lines_filtered_from.
    destruct (Z.ltb_spec i start_line) as [H|_]; [lia|].
    rewrite IH by lia. unfold past_end, ts_bounded.
    destruct end_line as [e|]; simpl; [|reflexivity].
    destruct (Z.gtb_spec i e) as [H|H].
    + replace (Z.to_nat (e - i + 1)) with 0%nat by lia. reflexivity.
    + replace (Z.to_nat (e - i + 1)) with (S (Z.to_nat (e - (i + 1) + 1)))
        by lia.
      reflexivity.
Qed.

End LineRange.

(** X7.  With only a line range, from a first line number that is at least
    1, [lines_filtered] yields the lines from the first to the last number
    of the range: the input without its first [start_line - 1] lines, cut
    after [end_line - start_line + 1] lines when there is an upper bound. *)
Theorem lines_filtered_line_range
  (start_line : Z) (end_line : option Z) (lines : list string) :
  1 <= start_line ->
  lines_filtered start_line end_line None None lines
  = match end_line with
    | Some e =>
        take (Z.to_nat (e - start_line + 1))
          (drop (Z.to_nat (start_line - 1)) lines)
    | None => drop (Z.to_nat (start_line - 1)) lines
    end.
Proof.
  intros H. unfold lines_filtered.
  rewrite lines_filtered_from_skip by exact H.
  now rewrite lines_filtered_from_inside by lia.
Qed.

Lemma lines_filtered_line_range_witness :
  lines_filtered 2 (Some 3) None None ["a"; "b"; "c"; "d"] = ["b"; "c"]
  /\ lines_filtered 3 (Some 3) None None ["a"; "b"; "c"; "d"] = ["c"]
  /\ lines_filtered 3 None None None ["a"; "b"; "c"; "d"] = ["c"; "d"].
Proof.
  split; [|split].
  - apply (lines_filtered_line_range 2 (Some 3) ["a"; "b"; "c"; "d"]). lia.
  - apply (lines_filtered_line_range 3 (Some 3) ["a"; "b"; "c"; "d"]). lia.
  - apply (lines_filtered_line_range 3 None ["a"; "b"; "c"; "d"]). lia.
Defined.

(** X8.  Without [-s], [-c], [-l] and [-t], [main] copies the input file to
    the output file line for line, prints nothing and raises nothing. *)
Theorem main_copies_without_options (a : args) :
  split_requested a = false -> args_compact a = false ->
  args_line_range a = None -> args_timestamp_range a = None ->
  main a = {| stdout := []; files := {[ args_output a := args_log a ]};
              exception := None |}.
Proof.
  intros Hs Hc Hl Ht. unfold main. rewrite Hs, Hc, Hl, Ht.
  rewrite lines_filtered_line_range by lia. reflexivity.
Qed.

Lemma main_copies_without_options_witness :
  main {| args_log := ["one" +:+ NL; "2 two" +:+ NL; "last"];
          args_output := "copy.log";
          args_compact := false;
          args_split := Some EmptyString;
          args_line_range := None;
          args_timestamp_range := None |}
  = {| stdout := [];
       files := {[ "copy.log" := ["one" +:+ NL; "2 two" +:+ NL; "last"] ]};
       exception := None |}.
Proof.
  apply (main_copies_without_options
           {| args_log := ["one" +:+ NL; "2 two" +:+ NL; "last"];
              args_output := "copy.log";
              args_compact := false;
              args_split := Some EmptyString;
              args_line_range := None;
              args_timestamp_range := None |});
    reflexivity.
Defined.

(** X9.  Whatever the bounds, what [lines_filtered] yields is a
    subsequence of the input: lines are left out, never changed, added or
    reordered. *)
Theorem lines_filtered_sublist
  (start_line : Z) (end_line : option Z) (ts_start ts_end : option float)
  (lines : list string) :
  sublist (lines_filtered start_line end_line ts_start ts_end lines) lines.
Proof.
  unfold lines_filtered. generalize 1.
  induction lines as [|l r IH]; intros i; simpl; [constructor|].
  destruct (i <? start_line); [apply sublist_cons, IH|].
  destruct (past_end end_line i); [apply sublist_nil_l|].
  destruct (ts_bounded ts_start ts_end
            && negb (line_timestamp_in_range l ts_start ts_end)).
  - apply sublist_cons, IH.
  - apply sublist_skip, IH.
Qed.

(** ** [process_compact] on well-behaved input *)

Section CompactRuns.

Variable start_line : Z.
Variable end_line : option Z.
Variables ts_start ts_end : option float.

Abbreviation run_ :=
  (process_compact_from start_line end_line ts_start ts_end).

Lemma line_in_filters_timestamped line lineno ts :
  exists keep,
    line_in_filters start_line end_line ts_start ts_end line lineno (Some ts)
    = Ok keep.
Proof.
  unfold line_in_filters.
  destruct (lineno <? start_line); [eauto|].
  destruct (past_end end_line lineno); [eauto|].
  destruct ts_start as [s|]; simpl.
  - destruct (lt ts s); [eauto|].
    destruct ts_end as [e|]; simpl; [destruct (gt ts e)|]; eauto.
  - destruct ts_end as [e|]; simpl; [destruct (gt ts e)|]; eauto.
Qed.

Lemma filter_members_timestamped ms :
  Forall (fun m : member => is_Some (snd m)) ms ->
  exists kept,
    filter_members start_line end_line ts_start ts_end ms = Ok kept
    /\ Forall (fun m : member => is_Some (snd m)) kept.
Proof.
  induction 1 as [|[[n l] t] r [ts Ht] _ (kept & IH & Hk)]; simpl.
  - exists []. split; [reflexivity|constructor].
  - simpl in Ht. subst t.
    destruct (line_in_filters_timestamped l n ts) as [keep ->].
    rewrite IH. simpl.
    destruct keep; eexists; (split; [reflexivity|]); [|exact Hk].
    constructor; [simpl; eauto|exact Hk].
Qed.

(** A group whose members all have a timestamp is flushed without an
    exception. *)
Lemma flush_group_timestamped c ms :
  Forall (fun m : member => is_Some (snd m)) ms ->
  exists w,
    flush_group start_line end_line ts_start ts_end c (group_of ms) = Ok w.
Proof.
  intros H. destruct (filter_members_timestamped ms H) as (kept & Hf & Hk).
  pose proof (flush_group_cases start_line end_line ts_start ts_end c ms
                kept Hf) as Hc.
  destruct kept as [|[[n1 l1] t1] [|m2 rest]]; eauto.
  destruct Hc as [(ts_min & ts_max & _ & _ & ->)|[Hnil _]]; [eauto|].
  apply Forall_cons in Hk as [[t Ht] _]. simpl in Ht. subst t1.
  discriminate.
Qed.

Lemma timestamp_of_digit line :
  has_digit line = true -> is_Some (timestamp_of line).
Proof.
  intros H. destruct (extract_total line) as (ts & c & E & Hts & _).
  unfold timestamp_of. rewrite E.
  destruct ts as [t|]; [eauto|]. destruct Hts as [Hts _].
  rewrite Hts in H by reflexivity. discriminate.
Qed.

Lemma process_compact_from_timestamped lines : forall pc ms n,
  Forall (fun l => has_digit l = true) lines ->
  Forall (fun m : member => is_Some (snd m)) ms ->
  snd (run_ pc (group_of ms) n lines) = None.
Proof.
  assert (Hflush : forall pc ms,
            Forall (fun m : member => is_Some (snd m)) ms ->
            exists w,
              flush start_line end_line ts_start ts_end pc (group_of ms)
              = Ok w).
  { intros [c|] ms H; [now apply flush_group_timestamped|]. simpl. eauto. }
  induction lines as [|l r IH]; intros pc ms n Hl Hms.
  - rewrite process_compact_from_nil.
    now destruct (Hflush pc ms Hms) as [w ->].
  - apply Forall_cons in Hl as [Hd Hr].
    pose proof (timestamp_of_digit l Hd) as Ht.
    rewrite process_compact_from_cons.
    destruct (decide (Some (content_of l) = pc)).
    + rewrite group_of_snoc. apply IH; [exact Hr|].
      apply Forall_app. split; [exact Hms|]. now constructor.
    + destruct (Hflush pc ms Hms) as [w ->]. simpl outcome_of.
      rewrite then_written. unfold emit. simpl.
      apply IH; [exact Hr|]. now constructor.
Qed.

(** The records never outnumber the lines read. *)
Lemma process_compact_from_length lines : forall pc g n,
  (length (fst (run_ pc g n lines))
   <= length lines + match pc with Some _ => 1 | None => 0 end)%nat.
Proof.
  assert (Hflush : forall pc g,
            (length (fst (outcome_of
                            (flush start_line end_line ts_start ts_end pc g)))
             <= match pc with Some _ => 1 | None => 0 end)%nat).
  { intros [c|] g; [apply flush_group_at_most_one|]. simpl. lia. }
  induction lines as [|l r IH]; intros pc g n.
  - rewrite process_compact_from_nil. simpl length. apply Hflush.
  - rewrite process_compact_from_cons.
    destruct (decide (Some (content_of l) = pc)) as [E|N].
    + etransitivity; [apply IH|]. simpl length. rewrite <- E. lia.
    + specialize (Hflush pc g).
      specialize (IH (Some (content_of l))
                    (group_of [(n, l, timestamp_of l)]) (n + 1)).
      destruct (flush start_line end_line ts_start ts_end pc g) as [w|e];
        simpl outcome_of in *.
      * rewrite then_written. unfold emit. simpl fst in *.
        rewrite length_app, length_cons. cbv beta iota in IH.
        destruct pc; lia.
      * rewrite then_raised. simpl. lia.
Qed.

End CompactRuns.

(** X10.  When every line of the file contains a decimal digit,
    [process_compact] raises no exception, whatever the bounds. *)
Theorem process_compact_total_on_timestamped_lines
  (start_line : Z) (end_line : option Z) (ts_start ts_end : option float)
  (lines : list string) :
  Forall (fun l => has_digit l = true) lines ->
  snd (process_compact start_line end_line ts_start ts_end lines) = None.
Proof.
  intros H. unfold process_compact.
  apply (process_compact_from_timestamped start_line end_line ts_start ts_end
           lines None [] 1 H).
  constructor.
Qed.

Lemma process_compact_total_on_timestamped_lines_witness :
  snd (process_compact 1 (Some 5) (Some ts_42) (Some ts_100)
         ["a 45" +:+ NL; "x 50 b" +:+ NL; "x 10 b" +:+ NL; "c7" +:+ NL])
  = None.
Proof.
  apply (process_compact_total_on_timestamped_lines 1 (Some 5) (Some ts_42)
           (Some ts_100)
           ["a 45" +:+ NL; "x 50 b" +:+ NL; "x 10 b" +:+ NL; "c7" +:+ NL]).
  repeat (apply Forall_cons; split; [reflexivity|]). apply Forall_nil.
  exact I.
Defined.

(** X11.  [process_compact] never writes more records than the file has
    lines. *)
Theorem process_compact_length
  (start_line : Z) (end_line : option Z) (ts_start ts_end : option float)
  (lines : list string) :
  (length (fst (process_compact start_line end_line ts_start ts_end lines))
   <= length lines)%nat.
Proof.
  unfold process_compact.
  pose proof (process_compact_from_length start_line end_line ts_start ts_end
                lines None empty_group 1) as H.
  simpl in H. unfold empty_group in H. lia.
Qed.

(** ** [process_compact] without repetitions *)

Section CompactPlain.

Variable start_line : Z.
Variable end_line : option Z.

Abbreviation numbered_ok :=
  (fun p : Z * string => Spec.line_number_check start_line end_line (fst p)).

Lemma flush_group_single c n l t :
  flush_group start_line end_line None None c (group_of [(n, l, t)])
  = Ok (if Spec.line_number_check start_line end_line n then [l] else []).
Proof.
  assert (Hf : filter_members start_line end_line None None [(n, l, t)]
               = Ok (if Spec.line_number_check start_line end_line n
                     then [(n, l, t)] else [])).
  { simpl. rewrite line_in_filters_unbounded by reflexivity. simpl.
    now destruct (Spec.line_number_check start_line end_line n). }
  pose proof (flush_group_cases start_line end_line None None c _ _ Hf) as H.
  now destruct (Spec.line_number_check start_line end_line n).
Qed.

Lemma process_compact_from_distinct lines : forall c n0 l0 t0 n,
  no_repeat (c :: (content_of <$> lines)) ->
  process_compact_from start_line end_line None None (Some c)
    (group_of [(n0, l0, t0)]) n lines
  = ((if Spec.line_number_check start_line end_line n0 then [l0] else [])
       ++ (snd <$> List.filter numbered_ok (enumerate_from n lines)),
     None).
Proof.
  induction lines as [|l r IH]; intros c n0 l0 t0 n H.
  - rewrite process_compact_from_nil. simpl flush.
    rewrite flush_group_single. simpl. now rewrite app_nil_r.
  - destruct H as [Hne H]. rewrite process_compact_from_cons.
    destruct (decide (Some (content_of l) = Some c)) as [E|_];
      [congruence|].
    simpl flush. rewrite flush_group_single. simpl outcome_of.
    rewrite then_written, IH by exact H. unfold emit. simpl.
    now destruct (Spec.line_number_check start_line end_line n).
Qed.

End CompactPlain.

(** X12.  With no timestamp bound, on a file in which no two consecutive
    lines have the same content, [process_compact] writes what the plain
    mode writes: the lines of the line range, unchanged, and it raises
    nothing. *)
Theorem process_compact_without_repetition
  (start_line : Z) (end_line : option Z) (lines : list string) :
  no_repeat (content_of <$> lines) ->
  process_compact start_line end_line None None lines
  = (lines_filtered start_line end_line None None lines, None).
Proof.
  intros H.
  assert (E : lines_filtered start_line end_line None None lines
              = snd <$> List.filter
                  (fun p : Z * string =>
                     Spec.line_number_check start_line end_line (fst p))
                  (enumerate_from 1 lines)).
  { unfold lines_filtered. rewrite lines_filtered_from_range. f_equal.
    apply List.filter_ext. intros [i l].
    unfold in_range, Spec.included. simpl. apply andb_true_r. }
  rewrite E. unfold process_compact. fold empty_group.
  destruct lines as [|l r]; [reflexivity|].
  rewrite process_compact_from_cons.
  destruct (decide (Some (content_of l) = None)) as [N|_]; [discriminate|].
  simpl outcome_of. rewrite then_written, emit_nil.
  rewrite process_compact_from_distinct by exact H.
  simpl. now destruct (Spec.line_number_check start_line end_line 1).
Qed.

Lemma process_compact_without_repetition_witness :
  process_compact 2 (Some 3) None None
    ["boot" +:+ NL; "10 up" +:+ NL; "down" +:+ NL; "12 up" +:+ NL]
  = (["10 up" +:+ NL; "down" +:+ NL], None).
Proof.
  apply (process_compact_without_repetition 2 (Some 3)
           ["boot" +:+ NL; "10 up" +:+ NL; "down" +:+ NL; "12 up" +:+ NL]).
  vm_compute. repeat split; discriminate.
Defined.

(** ** The streams of [process_split] with [-c] *)

(** X13.  With [-c], the stream of a keyword holds the records of
    [compact_lines] on the surviving lines routed to it, each with a
    newline, and the last record, the one written after the loop, is there
    once for every time the keyword is listed: twice for a keyword listed
    twice. *)
Theorem split_compact_stream
  (lines keywords : list string) (kw : string)
  (start_line : Z) (end_line : option Z) (ts_start ts_end : option float) :
  let records :=
    compact_lines
      (List.filter (routed keywords kw)
         (lines_filtered start_line end_line ts_start ts_end lines)) in
  stream
    (process_split lines keywords true start_line end_line ts_start ts_end)
    kw
  = with_newline
      <$> (removelast records
           ++ from_option (replicate (occurrences kw keywords)) []
                (last records)).
Proof.
  intros records. unfold process_split.
  rewrite stream_expected. reflexivity.
Qed.

Lemma split_compact_stream_witness :
  stream
    (process_split ["a" +:+ NL; "a" +:+ NL; "b a" +:+ NL] ["a"; "a"] true
       1 None None None) "a"
  = ["a (x2)" +:+ NL; "b a" +:+ NL; "b a" +:+ NL].
Proof.
  refine (eq_trans
            (split_compact_stream ["a" +:+ NL; "a" +:+ NL; "b a" +:+ NL]
               ["a"; "a"] "a" 1 None None None) _).
  vm_compute. reflexivity.
Defined.

(** X14.  With [-c] and keywords that are all different, the stream of a
    listed keyword is exactly [compact_lines] of the surviving lines routed
    to it, each record followed by a newline. *)
Theorem split_compact_stream_distinct
  (lines keywords : list string) (kw : string)
  (start_line : Z) (end_line : option Z) (ts_start ts_end : option float) :
  NoDup keywords -> kw ∈ keywords ->
  stream
    (process_split lines keywords true start_line end_line ts_start ts_end)
    kw
  = with_newline
      <$> compact_lines
            (List.filter (routed keywords kw)
               (lines_filtered start_line end_line ts_start ts_end lines)).
Proof.
  intros Hnd Hin. unfold process_split.
  rewrite stream_split_streams, split_init_view.
  set (mine := List.filter _ _).
  destruct (fold_view_match_compact mine [] None 0)
    as (body & p' & n' & -> & Hc & _).
  unfold compact_lines. rewrite Hc.
  rewrite view_finish_iter, view_write_previous_iter. simpl fst.
  assert (Hone : length (filter (fun k => k = kw) keywords) = 1%nat).
  { clear -Hnd Hin. induction Hnd as [|k r Hk Hr IH]; [inversion Hin|].
    rewrite filter_cons. destruct (decide (k = kw)) as [->|N].
    - simpl. f_equal. clear -Hk.
      induction r as [|x r IHr]; [reflexivity|].
      rewrite filter_cons. destruct (decide (x = kw)) as [->|_].
      + exfalso. apply Hk, elem_of_cons. now left.
      + apply IHr. intros H. apply Hk, elem_of_cons. now right.
    - apply IH. apply elem_of_cons in Hin as [->|Hin]; [congruence|exact Hin]. }
  rewrite Hone. simpl. now rewrite app_nil_r, fmap_app.
Qed.

Lemma split_compact_stream_distinct_witness :
  stream
    (process_split
       ["1 WARN disk" +:+ NL; "x" +:+ NL; "1 WARN disk" +:+ NL;
        "2 ERROR" +:+ NL; "3 WARN net" +:+ NL]
       ["WARN"; "ERROR"] true 1 None None None) "WARN"
  = ["1 WARN disk (x2)" +:+ NL; "3 WARN net" +:+ NL].
Proof.
  apply (split_compact_stream_distinct
           ["1 WARN disk" +:+ NL; "x" +:+ NL; "1 WARN disk" +:+ NL;
            "2 ERROR" +:+ NL; "3 WARN net" +:+ NL]
           ["WARN"; "ERROR"] "WARN" 1 None None None).
  - repeat constructor; intros H.
    + apply elem_of_cons in H as [H|H]; [discriminate|inversion H].
    + inversion H.
  - apply elem_of_cons. now left.
Defined.

(** ** The files of [process_split] *)

Lemma dom_write kw s st :
  kw ∈ dom (keyword_files st) ->
  dom (keyword_files (write kw s st)) = dom (keyword_files st).
Proof. intros H. unfold write. simpl. rewrite dom_insert_L. set_solver. Qed.

Lemma dom_write_previous kw st :
  kw ∈ dom (keyword_files st) ->
  dom (keyword_files (write_previous kw st)) = dom (keyword_files st).
Proof.
  intros H. unfold write_previous. destruct (prev_of st kw); [|reflexivity].
  destruct (count_of st kw >? 1); now apply dom_write.
Qed.

Lemma dom_split_match compact kw line s st :
  kw ∈ dom (keyword_files st) ->
  dom (keyword_files (split_match compact kw line s st))
  = dom (keyword_files st).
Proof.
  intros H. unfold split_match. destruct compact; [|now apply dom_write].
  destruct (decide (Some s = prev_of st kw)); [reflexivity|].
  simpl. now apply dom_write_previous.
Qed.

Lemma dom_split_line keywords compact st line :
  list_to_set keywords ⊆ dom (keyword_files st) ->
  dom (keyword_files (split_line keywords compact st line))
  = dom (keyword_files st).
Proof.
  intros H. unfold split_line. rewrite split_route_first_match.
  destruct (first_match keywords (rstrip_nl line)) as [kw|] eqn:E;
    [|reflexivity].
  apply dom_split_match, H, elem_of_list_to_set.
  eapply first_match_in. exact E.
Qed.

Lemma dom_split_init keywords :
  dom (keyword_files (split_init keywords)) = list_to_set keywords.
Proof.
  unfold split_init. simpl.
  assert (H : forall d : gmap string (list string),
            dom (fold_left (fun d kw => <[kw := []]> d) keywords d)
            = list_to_set keywords ∪ dom d).
  { induction keywords as [|k r IH]; intros d; simpl; [set_solver|].
    rewrite IH, dom_insert_L. set_solver. }
  rewrite H, dom_empty_L. set_solver.
Qed.

(** X15.  [process_split] opens one stream for every keyword listed, and no
    other, whether or not a line is routed to it. *)
Theorem process_split_streams
  (lines keywords : list string) (compact : bool)
  (start_line : Z) (end_line : option Z) (ts_start ts_end : option float) :
  dom (process_split lines keywords compact start_line end_line ts_start
         ts_end)
  = list_to_set keywords.
Proof.
  unfold process_split, split_streams.
  set (survivors := lines_filtered _ _ _ _ _).
  assert (Hloop : forall ls st,
            dom (keyword_files st) = list_to_set keywords ->
            dom (keyword_files
                   (fold_left (split_line keywords compact) ls st))
            = list_to_set keywords).
  { induction ls as [|l r IH]; intros st Hst; simpl; [exact Hst|].
    apply IH. rewrite dom_split_line; [exact Hst|]. now rewrite Hst. }
  assert (Hfin : forall st,
            dom (keyword_files st) = list_to_set keywords ->
            dom (keyword_files (split_finish keywords compact st))
            = list_to_set keywords).
  { unfold split_finish. destruct compact; [|auto].
    assert (H : forall ks st,
              list_to_set ks ⊆ dom (keyword_files st) ->
              dom (keyword_files
                     (fold_left (fun s kw => write_previous kw s) ks st))
              = dom (keyword_files st)).
    { induction ks as [|k r IH]; intros st Hsub; simpl; [reflexivity|].
      assert (Hk : k ∈ dom (keyword_files st)) by set_solver.
      rewrite IH; [now apply dom_write_previous|].
      rewrite dom_write_previous by exact Hk. set_solver. }
    intros st Hst. rewrite H; [exact Hst|]. now rewrite Hst. }
  apply Hfin, Hloop, dom_split_init.
Qed.

(** ** The names of the keyword files *)

Lemma length_append s t :
  String.length (s +:+ t) = (String.length s + String.length t)%nat.
Proof. induction s as [|c r IH]; simpl; [reflexivity|]. now rewrite IH. Qed.

Lemma substring_prefix b t :
  substring 0 (String.length b) (b +:+ t) = b.
Proof.
  induction b as [|c r IH]; simpl; [now destruct t|]. now rewrite IH.
Qed.

Lemma substring_suffix b t k :
  substring (String.length b) k (b +:+ t) = substring 0 k t.
Proof. induction b as [|c r IH]; simpl; [reflexivity|exact IH]. Qed.

Lemma append_inj_l a x y : a +:+ x = a +:+ y -> x = y.
Proof. induction a as [|c r IH]; simpl; [auto|]. intros [= H]. auto. Qed.

Lemma append_inj_r s : forall x y, x +:+ s = y +:+ s -> x = y.
Proof.
  intros x. induction x as [|c x IH]; intros y H.
  - destruct y as [|d y]; [reflexivity|].
    apply (f_equal String.length) in H. rewrite !length_append in H.
    simpl in H. lia.
  - destruct y as [|d y].
    + apply (f_equal String.length) in H. rewrite !length_append in H.
      simpl in H. lia.
    + simpl in H. injection H as -> H. f_equal. now apply IH.
Qed.

Lemma split_filename_inj base kw kw' :
  split_filename base kw = split_filename base kw' -> kw = kw'.
Proof.
  unfold split_filename. intros H.
  apply append_inj_l, append_inj_l in H. now apply append_inj_r in H.
Qed.

Lemma split_base_log base : split_base (base +:+ ".log") = base.
Proof.
  unfold split_base, endswith, drop_last.
  rewrite length_append. simpl String.length.
  replace (String.length base + 4 - 4)%nat with (String.length base) by lia.
  rewrite substring_suffix, substring_prefix.
  replace (4 <=? String.length base + 4)%nat with true
    by (symmetry; apply Nat.leb_le; lia).
  reflexivity.
Qed.

(** X16.  The file of a keyword is named [base.keyword.log], where [base]
    is the output name without a final [.log]: an output name and the same
    name followed by [.log] give the same files, and different keywords
    give different files. *)
Theorem split_filename_of_output (base kw : string) :
  (endswith base ".log" = false ->
   split_filename base kw = base +:+ "." +:+ kw +:+ ".log")
  /\ split_filename (base +:+ ".log") kw = base +:+ "." +:+ kw +:+ ".log"
  /\ (forall kw', split_filename base kw = split_filename base kw' ->
                  kw = kw').
Proof.
  split; [|split].
  - intros H. unfold split_filename, split_base. now rewrite H.
  - unfold split_filename. now rewrite split_base_log.
  - intros kw'. apply split_filename_inj.
Qed.

Lemma split_filename_of_output_witness :
  split_filename "out/app" "ERROR" = "out/app.ERROR.log".
Proof.
  apply (proj1 (split_filename_of_output "out/app" "ERROR")). reflexivity.
Defined.

Lemma lookup_list_to_map_named {V} (f : string -> string) (g : string -> V)
  (keywords : list string) (kw : string) :
  (forall k, f kw = f k -> kw = k) ->
  kw ∈ keywords ->
  (list_to_map ((fun k => (f k, g k)) <$> keywords) : gmap string V)
    !! f kw
  = Some (g kw).
Proof.
  intros Hinj. induction keywords as [|k r IH]; intros Hin;
    [inversion Hin|].
  rewrite fmap_cons, list_to_map_cons.
  destruct (decide (f k = f kw)) as [E|N].
  - rewrite E, lookup_insert_eq. symmetry in E.
    now rewrite (Hinj k E).
  - rewrite lookup_insert_ne by exact N. apply IH.
    apply elem_of_cons in Hin as [->|Hin]; [congruence|exact Hin].
Qed.

(** X17.  With [-s], [main] prints nothing and raises nothing, and the files
    it leaves are exactly the files named after the keywords: the file of a
    keyword holds what [process_split] wrote to the stream of that
    keyword. *)
Theorem main_split_files (a : args) (s : string) :
  args_split a = Some s -> s <> EmptyString ->
  let keywords := split_keywords s in
  let streams :=
    process_split (args_log a) keywords (args_compact a) (start_line_of a)
      (end_line_of a) (ts_start_of a) (ts_end_of a) in
  stdout (main a) = []
  /\ exception (main a) = None
  /\ dom (files (main a))
     = list_to_set (split_filename (args_output a) <$> keywords)
  /\ forall kw,
       kw ∈ keywords ->
       files (main a) !! split_filename (args_output a) kw
       = Some (stream streams kw).
Proof.
  intros Hs Hne keywords streams.
  assert (Hreq : split_requested a = true).
  { unfold split_requested. rewrite Hs. now destruct s. }
  assert (Hmain : main a
                  = {| stdout := [];
                       files := split_files (args_output a) keywords streams;
                       exception := None |}).
  { unfold main. rewrite Hreq, Hs. simpl default. fold keywords.
    subst streams.
    unfold start_line_of, end_line_of, ts_start_of, ts_end_of.
    pose proof (split_keywords_not_nil s) as Hk. fold keywords in Hk.
    destruct (args_line_range a) as [[? ?]|];
      destruct (args_timestamp_range a) as [[? ?]|];
      destruct keywords; congruence. }
  rewrite Hmain. simpl. split; [reflexivity|]. split; [reflexivity|].
  unfold split_files. split.
  - rewrite dom_list_to_map_L. f_equal.
    rewrite <- list_fmap_compose. reflexivity.
  - intros kw Hin.
    apply (lookup_list_to_map_named (split_filename (args_output a))
             (fun k => default [] (streams !! k)) keywords kw); [|exact Hin].
    intros k. apply split_filename_inj.
Qed.

Lemma main_split_files_witness :
  files (main {| args_log := ["1 WARN a" +:+ NL; "2 ok" +:+ NL;
                              "3 ERROR b" +:+ NL];
                 args_output := "logs/run.log";
                 args_compact := false;
                 args_split := Some "WARN, ERROR";
                 args_line_range := None;
                 args_timestamp_range := None |})
    !! "logs/run.ERROR.log"
  = Some ["3 ERROR b" +:+ NL].
Proof.
  destruct (main_split_files
              {| args_log := ["1 WARN a" +:+ NL; "2 ok" +:+ NL;
                              "3 ERROR b" +:+ NL];
                 args_output := "logs/run.log";
                 args_compact := false;
                 args_split := Some "WARN, ERROR";
                 args_line_range := None;
                 args_timestamp_range := None |}
              "WARN, ERROR" eq_refl ltac:(discriminate))
    as (_ & _ & _ & H).
  refine (eq_trans (H "ERROR" _) _).
  - vm_compute. apply elem_of_cons. right. apply elem_of_cons. now left.
  - vm_compute. reflexivity.
Defined.

(** ** The range arguments *)

(** X18.  A line range that [parse_time_range] accepts starts at line 1 or
    later and does not end before it starts. *)
Theorem parse_time_range_sound (range_str : string) (start end_ : Z) :
  parse_time_range range_str = Parsed (start, end_) ->
  1 <= start /\ start <= end_.
Proof.
  unfold parse_time_range.
  destruct (split_on "-" range_str) as [|p0 [|p1 [|p2 r]]];
    try discriminate.
  destruct (int_of_str p0) as [x|e]; [|discriminate].
  destruct (int_of_str p1) as [y|e]; [|discriminate].
  simpl.
  destruct (Z.ltb_spec x 1); [discriminate|].
  destruct (Z.ltb_spec y x); [discriminate|].
  simpl. intros [= <- <-]. lia.
Qed.

Lemma parse_time_range_sound_witness : 1 <= 100 /\ 100 <= 200.
Proof.
  apply (parse_time_range_sound "100-200" 100 200). vm_compute. reflexivity.
Defined.

Lemma all_digits_string_of_uint d :
  all_digits (NilEmpty.string_of_uint d) = true.
Proof. induction d; simpl; auto. Qed.

Lemma N_of_digits_from_string_of_uint d : forall d',
  N_of_digits_from (DecimalPos.Unsigned.of_lu d') (NilEmpty.string_of_uint d)
  = DecimalPos.Unsigned.of_lu (Decimal.revapp d d').
Proof.
  induction d as [|d IH|d IH|d IH|d IH|d IH|d IH|d IH|d IH|d IH|d IH];
    intros d';
    cbn [NilEmpty.string_of_uint N_of_digits_from Decimal.revapp];
    [reflexivity|..];
    rewrite <- IH; f_equal;
    rewrite (DecimalPos.Unsigned.of_lu_eqn (_ d'));
    cbn [DecimalPos.Unsigned.hd DecimalPos.Unsigned.tl];
    match goal with
    | |- context [digit_value ?c] =>
        let v := eval vm_compute in (digit_value c) in
        change (digit_value c) with v
    end;
    lia.
Qed.

(** The decimal digits of a natural number, read back. *)
Lemma str_of_Z_digits n :
  0 <= n ->
  all_digits (str_of_Z n) = true /\ str_of_Z n <> EmptyString
  /\ Z.of_N (N_of_digits (str_of_Z n)) = n.
Proof.
  intros H. destruct n as [|p|p]; [repeat split; discriminate| |lia].
  unfold str_of_Z. simpl Z.to_int. unfold NilZero.string_of_int.
  unfold NilZero.string_of_uint.
  pose proof (DecimalPos.Unsigned.to_uint_nonnil p) as Hnil.
  pose proof (DecimalPos.Unsigned.of_to p) as Hof.
  destruct (Pos.to_uint p) as [|d|d|d|d|d|d|d|d|d|d] eqn:E;
    [congruence|..];
    (split; [rewrite <- E; apply all_digits_string_of_uint|];
     split; [discriminate|];
     rewrite <- E; unfold N_of_digits;
     change 0%N with (DecimalPos.Unsigned.of_lu Decimal.Nil);
     rewrite N_of_digits_from_string_of_uint;
     fold (Decimal.rev (Pos.to_uint p));
     rewrite <- DecimalPos.Unsigned.of_uint_alt, E, Hof; reflexivity).
Qed.

Lemma int_of_str_digits s :
  all_digits s = true -> s <> EmptyString ->
  int_of_str s
  = if Z.of_nat (String.length s) >? int_max_str_digits
    then Raise ValueError
    else Ok (Z.of_N (N_of_digits s)).
Proof.
  intros Hd Hne. unfold int_of_str.
  pose proof (all_digits_plain s Hd) as Hp.
  destruct s as [|c r] eqn:Es; [congruence|]. rewrite <- Es in *.
  assert (Hc : is_digit c || is_dot c = true).
  { rewrite Es in Hd. simpl in Hd. apply andb_prop in Hd as [-> _].
    reflexivity. }
  destruct (digit_or_dot_facts c Hc) as (Hsp & _ & Hplus & Hminus & _).
  assert (Hl : lstrip_float s = s) by (rewrite Es; simpl; now rewrite Hsp).
  rewrite Hl, (rstrip_float_plain s Hp), (drop_underscores_plain s None I Hp).
  assert (Hs : split_sign s = (false, s))
    by (rewrite Es; simpl; now rewrite Hplus, Hminus).
  rewrite Hs.
  pose proof (span_digits_all s EmptyString Hd I) as E.
  rewrite append_empty_r in E. rewrite E.
  rewrite Es. reflexivity.
Qed.

Lemma all_digits_no_dash s : all_digits s = true -> has_char "-" s = false.
Proof.
  induction s as [|c r IH]; [reflexivity|]. simpl.
  intros [Hc Hr]%andb_prop. rewrite (IH Hr).
  destruct (digit_or_dot_facts c) as (_ & _ & _ & -> & _);
    [now rewrite Hc|reflexivity].
Qed.

Lemma split_on_whole sep s : has_char sep s = false -> split_on sep s = [s].
Proof.
  induction s as [|c r IH]; [reflexivity|]. simpl.
  intros [Hc Hr]%orb_false_elim. now rewrite Hc, (IH Hr).
Qed.

Lemma split_on_first sep p q :
  has_char sep p = false ->
  split_on sep (p +:+ String sep q) = p :: split_on sep q.
Proof.
  induction p as [|c r IH]; simpl.
  - intros _. now rewrite Ascii.eqb_refl.
  - intros [Hc Hr]%orb_false_elim. now rewrite Hc, (IH Hr).
Qed.

(** The value of a run of digits, between the powers of ten that its
    length gives. *)
Lemma N_of_digits_from_bounds s : forall acc,
  all_digits s = true ->
  (acc * 10 ^ N.of_nat (String.length s) <= N_of_digits_from acc s
   /\ N_of_digits_from acc s < (acc + 1) * 10 ^ N.of_nat (String.length s))%N.
Proof.
  induction s as [|c r IH]; intros acc Hd.
  - simpl. lia.
  - simpl in Hd. apply andb_prop in Hd as [Hc Hr].
    assert (Hv : (digit_value c <= 9)%N).
    { clear -Hc. unfold is_digit in Hc. unfold digit_value.
      revert Hc. generalize (N_of_ascii c). intros n Hn.
      apply andb_prop in Hn as [_ Hn]. apply N.leb_le in Hn. lia. }
    cbn [N_of_digits_from String.length].
    destruct (IH (10 * acc + digit_value c)%N Hr) as [Hlo Hhi].
    rewrite Nat2N.inj_succ, N.pow_succ_r'.
    set (q := (10 ^ N.of_nat (String.length r))%N) in *.
    split; nia.
Qed.

(** The decimal digits of a positive number start with a digit that is
    not zero. *)
Lemma str_of_Z_leading p :
  exists c r,
    str_of_Z (Zpos p) = String c r /\ (1 <= digit_value c)%N.
Proof.
  unfold str_of_Z. simpl Z.to_int. unfold NilZero.string_of_int.
  unfold NilZero.string_of_uint.
  pose proof (DecimalPos.Unsigned.to_uint_nonzero p) as Hz.
  assert (Hn : Decimal.unorm (Pos.to_uint p) = Pos.to_uint p).
  { rewrite <- DecimalPos.Unsigned.to_of, DecimalPos.Unsigned.of_to.
    reflexivity. }
  destruct (Pos.to_uint p) as [|d|d|d|d|d|d|d|d|d|d] eqn:E;
    try (eexists _, _; split; [reflexivity|vm_compute; discriminate]).
  exfalso. rewrite DecimalFacts.unorm_D0 in Hn.
  destruct d as [|u|u|u|u|u|u|u|u|u|u] eqn:Ed;
    [now apply Hz|rewrite <- Ed in *..];
    (assert (Hd : d <> Decimal.Nil) by (rewrite Ed; discriminate);
     pose proof (DecimalFacts.nb_digits_unorm d Hd) as Hlen;
     rewrite Hn in Hlen; simpl in Hlen; lia).
Qed.

(** A positive number below [10 ^ k], and no other, is written with at
    most [k] digits. *)
Lemma str_of_Z_length n k :
  1 <= n -> 0 <= k ->
  (Z.of_nat (String.length (str_of_Z n)) <= k <-> n < 10 ^ k).
Proof.
  intros Hn Hk.
  destruct (str_of_Z_digits n ltac:(lia)) as (Hd & _ & Hv).
  destruct n as [|p|p]; [lia| |lia].
  destruct (str_of_Z_leading p) as (c & r & E & Hc).
  rewrite E in *. unfold N_of_digits in Hv.
  cbn [N_of_digits_from] in Hv.
  simpl in Hd. apply andb_prop in Hd as [Hdc Hr].
  destruct (N_of_digits_from_bounds r (10 * 0 + digit_value c)%N Hr)
    as [Hlo Hhi].
  pose proof (N_of_digits_from_bounds (String c r) 0%N) as Hall.
  simpl in Hall. rewrite Hdc, Hr in Hall. destruct (Hall eq_refl) as [_ Hup].
  clear Hall. cbn [N_of_digits_from] in Hup.
  set (v := N_of_digits_from (10 * 0 + digit_value c) r) in *.
  set (len := String.length r) in *.
  cbn [String.length]. fold len. rewrite Nat2Z.inj_succ.
  assert (Hlo' : 10 ^ Z.of_nat len <= Z.pos p).
  { rewrite <- Hv. change 10 with (Z.of_N 10) at 1.
    rewrite <- nat_N_Z, <- N2Z.inj_pow. apply N2Z.inj_le.
    etransitivity; [|exact Hlo].
    rewrite <- (N.mul_1_l (10 ^ N.of_nat len)) at 1.
    apply N.mul_le_mono_r. lia. }
  assert (Hup' : Z.pos p < 10 ^ (Z.of_nat len + 1)).
  { rewrite <- Hv. change 10 with (Z.of_N 10) at 1.
    replace (Z.of_nat len + 1) with (Z.of_N (N.of_nat (S len)))
      by (rewrite nat_N_Z; lia).
    rewrite <- N2Z.inj_pow. apply N2Z.inj_lt.
    rewrite N.mul_1_l in Hup. exact Hup. }
  split.
  - intros Hle. eapply Z.lt_le_trans; [exact Hup'|].
    apply Z.pow_le_mono_r; lia.
  - intros Hlt.
    assert (Hpow : 10 ^ Z.of_nat len < 10 ^ k) by lia.
    apply Z.pow_lt_mono_r_iff in Hpow; lia.
Qed.

(** X19.  Printing a line range and parsing it gives the range back, up to
    the digit limit of [int]: for [1 <= start <= end], [parse_time_range]
    accepts [start-end] written in decimal and returns the two numbers when
    [end] is below [10 ^ 4300], and refuses it otherwise. *)
Theorem parse_time_range_of_printed (start end_ : Z) :
  1 <= start -> start <= end_ ->
  parse_time_range (str_of_Z start +:+ "-" +:+ str_of_Z end_)
  = if end_ <? 10 ^ int_max_str_digits then Parsed (start, end_)
    else ArgumentTypeError time_range_message.
Proof.
  intros H1 H2.
  destruct (str_of_Z_digits start ltac:(lia)) as (Ds & Ns & Vs).
  destruct (str_of_Z_digits end_ ltac:(lia)) as (De & Ne & Ve).
  assert (Hmax : 0 <= int_max_str_digits) by (unfold int_max_str_digits; lia).
  pose proof (str_of_Z_length start _ H1 Hmax) as Ls.
  pose proof (str_of_Z_length end_ _ ltac:(lia) Hmax) as Le.
  assert (Hmono : 10 ^ int_max_str_digits <= start ->
                  10 ^ int_max_str_digits <= end_) by lia.
  unfold parse_time_range.
  change (str_of_Z start +:+ "-" +:+ str_of_Z end_)
    with (str_of_Z start +:+ String "-" (str_of_Z end_)).
  rewrite split_on_first by now apply all_digits_no_dash.
  rewrite split_on_whole by now apply all_digits_no_dash.
  rewrite !int_of_str_digits by assumption.
  rewrite Vs, Ve.
  generalize dependent (10 ^ int_max_str_digits). intros bound Ls Le Hmono.
  destruct (Z.ltb_spec end_ bound) as [Hb|Hb].
  - destruct (Z.gtb_spec (Z.of_nat (String.length (str_of_Z start)))
                int_max_str_digits); [lia|].
    destruct (Z.gtb_spec (Z.of_nat (String.length (str_of_Z end_)))
                int_max_str_digits); [lia|].
    cbn [bind].
    destruct (Z.ltb_spec start 1); [lia|].
    destruct (Z.ltb_spec end_ start); [lia|]. reflexivity.
  - destruct (Z.gtb_spec (Z.of_nat (String.length (str_of_Z end_)))
                int_max_str_digits); [|lia].
    destruct (Z.gtb_spec (Z.of_nat (String.length (str_of_Z start)))
                int_max_str_digits); reflexivity.
Qed.

Lemma parse_time_range_of_printed_witness :
  parse_time_range "5-5" = Parsed (5, 5)
  /\ parse_time_range "100-2000" = Parsed (100, 2000).
Proof.
  split.
  - refine (eq_trans (parse_time_range_of_printed 5 5 _ _) _);
      [lia|lia|vm_compute; reflexivity].
  - refine (eq_trans (parse_time_range_of_printed 100 2000 _ _) _);
      [lia|lia|vm_compute; reflexivity].
Defined.

Lemma has_char_lstrip_float c s :
  has_char c s = false -> has_char c (lstrip_float s) = false.
Proof.
  induction s as [|d r IH]; [reflexivity|]. simpl.
  intros H. destruct (is_float_space d); [|exact H].
  apply orb_false_elim in H as [_ H]. auto.
Qed.

Lemma has_char_rstrip_float c s :
  has_char c s = false -> has_char c (rstrip_float s) = false.
Proof.
  induction s as [|d r IH]; [reflexivity|]. simpl.
  intros [Hd Hr]%orb_false_elim. specialize (IH Hr).
  destruct (rstrip_float r) as [|e r'].
  - destruct (is_float_space d); [reflexivity|]. simpl. now rewrite Hd.
  - simpl in *. now rewrite Hd, IH.
Qed.

Lemma has_char_drop_underscores c s : forall prev u,
  drop_underscores prev s = Some u ->
  has_char c s = false -> has_char c u = false.
Proof.
  induction s as [|d r IH]; intros prev u; simpl.
  - destruct prev as [p|]; [destruct (Ascii.eqb p underscore)|];
      intros [= <-]; reflexivity || discriminate.
  - intros H [Hd Hr]%orb_false_elim.
    assert (Hcons : forall q,
              String d <$> drop_underscores q r = Some u ->
              has_char c u = false).
    { intros q Hq. destruct (drop_underscores q r) as [u'|] eqn:E;
        [|discriminate].
      injection Hq as <-. simpl. rewrite Hd. simpl. eapply IH; eauto. }
    destruct (Ascii.eqb d underscore).
    + destruct prev as [p|]; [|discriminate].
      destruct (is_digit p); [|discriminate]. eapply IH; eauto.
    + destruct prev as [p|]; [|eauto].
      destruct (Ascii.eqb p underscore && negb (is_digit d));
        [discriminate|eauto].
Qed.

(** A literal without a minus sign is not read as a negative number. *)
Lemma float_of_str_no_dash s x :
  has_char "-" s = false -> float_of_str s = Ok x -> is_negative x = false.
Proof.
  intros Hs. unfold float_of_str.
  destruct (drop_underscores None (rstrip_float (lstrip_float s)))
    as [u|] eqn:Eu; [|discriminate].
  assert (Hu : has_char "-" u = false).
  { eapply has_char_drop_underscores; [exact Eu|].
    now apply has_char_rstrip_float, has_char_lstrip_float. }
  assert (Hsign : exists body, split_sign u = (false, body)).
  { unfold split_sign. destruct u as [|c r]; [eauto|].
    destruct (Ascii.eqb c "+"); [eauto|].
    simpl in Hu. apply orb_false_elim in Hu as [-> _]. eauto. }
  destruct Hsign as [body ->].
  repeat case_match; try discriminate; intros [= <-];
    first [reflexivity|apply of_decimal_sign].
Qed.

Lemma split_on_no_sep sep s :
  Forall (fun p => has_char sep p = false) (split_on sep s).
Proof.
  induction s as [|c r IH]; simpl.
  - repeat constructor.
  - destruct (Ascii.eqb c sep) eqn:Hc.
    + constructor; [reflexivity|exact IH].
    + destruct (split_on sep r) as [|h t].
      * repeat constructor. simpl. now rewrite Hc.
      * apply Forall_cons in IH as [Hh Ht].
        constructor; [simpl; now rewrite Hc, Hh|exact Ht].
Qed.

(** X20.  A timestamp range that [parse_timestamp_range] accepts does not
    start above its end, and neither bound is negative: a range with a
    minus sign inside a number is always refused. *)
Theorem parse_timestamp_range_sound (range_str : string) (start end_ : float) :
  parse_timestamp_range range_str = Parsed (start, end_) ->
  gt start end_ = false
  /\ is_negative start = false /\ is_negative end_ = false.
Proof.
  unfold parse_timestamp_range.
  pose proof (split_on_no_sep "-" range_str) as Hparts.
  destruct (split_on "-" range_str) as [|p0 [|p1 [|p2 r]]];
    try discriminate.
  apply Forall_cons in Hparts as [H0 Hparts].
  apply Forall_cons in Hparts as [H1 _].
  destruct (float_of_str p0) as [x|e] eqn:E0; [|discriminate].
  destruct (float_of_str p1) as [y|e] eqn:E1; [|discriminate].
  simpl. destruct (gt x y) eqn:Hgt; [discriminate|].
  intros [= <- <-]. split; [exact Hgt|].
  split.
  - exact (float_of_str_no_dash p0 x H0 E0).
  - exact (float_of_str_no_dash p1 y H1 E1).
Qed.

Lemma parse_timestamp_range_sound_witness :
  gt ts_100 ts_100050_5 = false
  /\ is_negative ts_100 = false /\ is_negative ts_100050_5 = false.
Proof.
  apply (parse_timestamp_range_sound "100.0-100050.5" ts_100 ts_100050_5).
  vm_compute. reflexivity.
Defined.

(** ** The directory of an output file *)

Lemma upto_last_slash_none p :
  has_char "/" p = false -> upto_last_slash p = EmptyString.
Proof.
  induction p as [|c r IH]; [reflexivity|]. simpl.
  intros [Hc Hr]%orb_false_elim. rewrite (IH Hr).
  unfold is_slash. now rewrite Hc.
Qed.

Lemma upto_last_slash_prefix p :
  exists rest, p = upto_last_slash p +:+ rest.
Proof.
  induction p as [|c r [rest IH]]; [now exists EmptyString|]. simpl.
  destruct (upto_last_slash r) as [|d h] eqn:E.
  - destruct (is_slash c); [exists r|exists (String c r)]; reflexivity.
  - exists rest. simpl in *. now rewrite <- IH.
Qed.

Lemma rstrip_slash_prefix s : exists rest, s = rstrip_slash s +:+ rest.
Proof.
  induction s as [|c r [rest IH]]; [now exists EmptyString|]. simpl.
  destruct (rstrip_slash r) as [|d h] eqn:E.
  - destruct (is_slash c); [exists (String c r)|exists r]; reflexivity.
  - exists rest. simpl in *. now rewrite <- IH.
Qed.

(** X21.  For a file name without a slash [ensure_dir_for_file] creates no
    directory, whatever exists.  When it does create one, the directory is
    not empty, did not exist, and is a prefix of the path of the file. *)
Theorem ensure_dir_for_file_creates
  (path_exists : string -> bool) (filepath : string) :
  (has_char "/" filepath = false ->
   ensure_dir_for_file path_exists filepath = None)
  /\ (forall directory,
        ensure_dir_for_file path_exists filepath = Some directory ->
        directory <> EmptyString
        /\ path_exists directory = false
        /\ exists rest, filepath = directory +:+ rest).
Proof.
  unfold ensure_dir_for_file. split.
  - intros H. unfold dirname. now rewrite (upto_last_slash_none _ H).
  - intros directory.
    destruct (is_empty (dirname filepath)) eqn:He; [discriminate|].
    destruct (path_exists (dirname filepath)) eqn:Hx; [discriminate|].
    simpl. intros [= <-].
    split; [intros E; rewrite E in He; discriminate|].
    split; [exact Hx|].
    unfold dirname.
    destruct (upto_last_slash_prefix filepath) as [rest Hp].
    destruct (negb (is_empty (upto_last_slash filepath))
              && negb (all_slashes (upto_last_slash filepath))).
    + destruct (rstrip_slash_prefix (upto_last_slash filepath))
        as [rest' Hr].
      exists (rest' +:+ rest). rewrite <- append_assoc, <- Hr. exact Hp.
    + exists rest. exact Hp.
Qed.

Lemma ensure_dir_for_file_creates_witness :
  "out" <> EmptyString
  /\ (fun _ : string => false) "out" = false
  /\ exists rest, "out/a.log" = "out" +:+ rest.
Proof.
  apply (proj2 (ensure_dir_for_file_creates (fun _ => false) "out/a.log")
           "out").
  reflexivity.
Defined.

(** ** The runs of [main] *)

(** X22.  A run of [main] prints nothing, and it ends with an exception only
    when asked to compact without splitting a file that has a line without
    a decimal digit. *)
Theorem main_raises_only_when_compacting (a : args) :
  stdout (main a) = []
  /\ (exception (main a) = None
      \/ (args_compact a = true /\ split_requested a = false
          /\ Exists (fun l => has_digit l = false) (args_log a))).
Proof.
  assert (Hlines :
            Forall (fun l => has_digit l = true) (args_log a)
            \/ Exists (fun l => has_digit l = false) (args_log a)).
  { induction (args_log a) as [|l ls [IH|IH]].
    - left. constructor.
    - destruct (has_digit l) eqn:Hl.
      + left. now constructor.
      + right. now constructor.
    - right. now constructor. }
  unfold main.
  destruct (args_line_range a) as [[s e]|];
    destruct (args_timestamp_range a) as [[ts te]|];
    (destruct (split_requested a);
     [ pose proof (split_keywords_not_nil (default EmptyString (args_split a)));
       destruct (split_keywords _); [congruence|split; [reflexivity|now left]]
     | destruct (args_compact a); [|split; [reflexivity|now left]] ]).
  all: match goal with
       | |- context [process_compact ?sl ?el ?s0 ?s1 ?ls] =>
           pose proof (process_compact_from_timestamped sl el s0 s1 ls
                         None [] 1) as Hp;
           unfold process_compact;
           destruct (process_compact_from _ _ _ _ _ _ _ _)
             as [written ex] eqn:E
       end;
    (split; [reflexivity|]);
    destruct Hlines as [Hall|Hex];
    [left; simpl in *; apply Hp; [exact Hall|constructor]
    |right; auto].
Qed.

(** ** The groups of [process_compact] *)

(** X23.  Let [run] be consecutive lines of one derived content [c], with a
    line of another content (or nothing) on each side.  Then what
    [process_compact] writes for the file is what it writes for the lines
    before, then what the flush of the single group made of all of [run]
    writes, then what it writes for the lines after: the group is cut by
    content alone, whichever members the range excludes.  The flush writes
    at most one record.  When the filter of the members raises, the flush
    raises the same and writes nothing; with no survivor it writes nothing,
    with one it writes that line; with two or more it writes the summary
    whose count is the number of survivors, unless no survivor has a
    timestamp, and then it raises [ValueError] and writes nothing. *)
Theorem compact_groups_by_content_alone
  (start_line : Z) (end_line : option Z) (ts_start ts_end : option float)
  (pre run post : list string) (c : string) :
  run <> [] ->
  Forall (fun l => content_of l = c) run ->
  (forall l, last pre = Some l -> content_of l <> c) ->
  (forall l, head post = Some l -> content_of l <> c) ->
  let n := 1 + Z.of_nat (length pre) in
  let emitted := flush_run start_line end_line ts_start ts_end n c run in
  process_compact start_line end_line ts_start ts_end (pre ++ run ++ post)
  = then_ (process_compact start_line end_line ts_start ts_end pre)
      (then_ emitted
         (process_compact_from start_line end_line ts_start ts_end None
            empty_group (n + Z.of_nat (length run)) post))
  /\ (length (fst emitted) <= 1)%nat
  /\ match
       filter_members start_line end_line ts_start ts_end
         (members_from n run)
     with
     | Raise e => emitted = ([], Some e)
     | Ok [] => emitted = ([], None)
     | Ok [(_, l, _)] => emitted = ([l], None)
     | Ok survivors =>
         match
           py_min (timestamps_of survivors),
           py_max (timestamps_of survivors)
         with
         | Ok ts_min, Ok ts_max =>
             emitted
             = ([summary c (Z.of_nat (length survivors)) ts_min ts_max],
                None)
         | _, _ =>
             timestamps_of survivors = []
             /\ emitted = ([], Some ValueError)
         end
     end.
Proof.
  intros Hne Hall Hpre Hpost n emitted. split; [|split].
  - unfold process_compact. fold empty_group.
    rewrite process_compact_from_app.
    2:{ intros l Hl. unfold last_content.
        destruct run as [|x run']; [congruence|].
        simpl in Hl. injection Hl as <-.
        apply Forall_cons in Hall as [Hx _].
        destruct (last pre) as [y|] eqn:Ey; [|discriminate].
        intros [= E]. apply (Hpre y eq_refl). congruence. }
    f_equal. fold n.
    rewrite process_compact_from_app.
    2:{ intros l Hl. unfold last_content.
        destruct (last run) as [y|] eqn:Ey.
        - assert (Hy : content_of y = c).
          { rewrite Forall_forall in Hall. apply Hall.
            apply last_Some_elem_of. exact Ey. }
          intros [= E]. apply (Hpost l Hl). congruence.
        - apply last_None in Ey. congruence. }
    f_equal. apply process_compact_from_run; assumption.
  - apply flush_group_at_most_one.
  - subst emitted. unfold flush_run.
    destruct (filter_members start_line end_line ts_start ts_end
                (members_from n run)) as [survivors|e] eqn:Hf.
    + pose proof (flush_group_cases start_line end_line ts_start ts_end c
                    _ _ Hf) as H.
      destruct survivors as [|[[n1 l1] t1] [|m2 rest]].
      * now rewrite H.
      * now rewrite H.
      * destruct H as [(ts_min & ts_max & -> & -> & ->)|[Hts ->]].
        -- reflexivity.
        -- rewrite Hts. simpl. split; reflexivity.
    + unfold flush_group. rewrite zip3_group_of, Hf. reflexivity.
Qed.

Lemma compact_groups_by_content_alone_witness :
  process_compact 1 None (Some ts_42) (Some ts_100)
    (["a 45" +:+ NL]
       ++ ["x 50 b" +:+ NL; "x 10 b" +:+ NL; "x 60 b" +:+ NL]
       ++ ["c 70" +:+ NL])
  = (["a 45" +:+ NL; "x  b (x2, TS: 50.000-60.000)" +:+ NL; "c 70" +:+ NL],
     None)
  /\ filter_members 1 None (Some ts_42) (Some ts_100)
       (members_from 2 ["x 50 b" +:+ NL; "x 10 b" +:+ NL; "x 60 b" +:+ NL])
     = Ok [(2, "x 50 b" +:+ NL, timestamp_of ("x 50 b" +:+ NL));
           (4, "x 60 b" +:+ NL, timestamp_of ("x 60 b" +:+ NL))].
Proof.
  set (pre := ["a 45" +:+ NL]).
  set (run := ["x 50 b" +:+ NL; "x 10 b" +:+ NL; "x 60 b" +:+ NL]).
  set (post := ["c 70" +:+ NL]).
  assert (Hne : run <> []) by discriminate.
  assert (Hall : Forall (fun l => content_of l = "x  b") run).
  { repeat (apply Forall_cons; split; [vm_compute; reflexivity|]).
    apply Forall_nil. exact I. }
  assert (Hpre : forall l, last pre = Some l -> content_of l <> "x  b").
  { intros l [= <-]. vm_compute. discriminate. }
  assert (Hpost : forall l, head post = Some l -> content_of l <> "x  b").
  { intros l [= <-]. vm_compute. discriminate. }
  destruct (compact_groups_by_content_alone 1 None (Some ts_42) (Some ts_100)
              pre run post "x  b" Hne Hall Hpre Hpost) as (Hsplit & _ & _).
  split.
  - rewrite Hsplit. vm_compute. reflexivity.
  - vm_compute. reflexivity.
Defined.
